(** * pdf_classification: a model of the two scanners and their properties

    The repository holds two versions of one script:
    - [src/pdf_processor.py]    (module [V1] below), and
    - [src/pdf_processor_v6.py] (module [V6] below).

    Both walk a directory tree with [find], hand every path to a pool of
    worker processes running [process_single_pdf], and write one CSV row
    per result.  Everything the scripts obtain from outside (the file
    system, PyMuPDF, the [find] subprocess, the clock, the order in which
    futures complete) is an explicit input of the model; the functions of
    the scripts are translated one to one. *)

From Stdlib Require Import ZArith String Ascii List Permutation Lia.
From stdpp Require Import base gmap sets list strings pretty.

Set Warnings "-clear-no-such-hyp".

Local Open Scope string_scope.
Local Open Scope list_scope.
Local Open Scope Z_scope.

(** ** Python values and the outside world *)

Module Py.

(** A call that either returns or raises an [Exception] carrying a
    message (the text [f"{e}"] prints). *)
Inductive result (A : Type) : Type :=
| Ok (a : A)
| Raise (msg : string).
Arguments Ok {A} a.
Arguments Raise {A} msg.

(** What the scripts read from an opened [fitz] document. *)
Record Doc := {
  is_encrypted : bool;          (* doc.is_encrypted *)
  doc_page_count : result Z     (* doc.page_count, len(doc) *)
}.

(** The standard output of a started subprocess, read line by line:
    the lines obtained, and the exception that ended the reading after
    them, if one did (a line that does not decode, say). *)
Record ProcOut := {
  out_lines : list string;
  read_error : option string
}.

(** Library functions and operating-system state the scripts call into. *)
Record World := {
  normcase : string -> string;           (* os.path.normcase *)
  strip : string -> string;              (* str.strip *)
  rstrip_nl : string -> string;          (* str.rstrip("\n") *)
  str_path : string -> string;           (* str(Path(s)) *)
  path_exists : string -> bool;          (* Path.exists *)
  stat_size : string -> result Z;        (* Path.stat().st_size *)
  fitz_open : string -> result Doc;      (* fitz.open *)
  popen : list string -> result ProcOut; (* subprocess.Popen(argv), its stdout *)
  rglob_pdf : string -> list string;     (* Path.rglob("*.[pP][dD][fF]") *)
  elapsed_ms : string -> Z;              (* wall time spent on one file *)
  float_text : Z -> Z -> string;         (* str(n / d) of a float, as csv.writer prints it *)
  encode_error : string -> option string;
    (* the UnicodeEncodeError raised when the text is written to a file
       opened with encoding='utf-8', if it is: a text with a surrogate,
       which stands for a byte of a file name that is not UTF-8 *)
  append_error : option string
    (* the exception open(csv_file, 'a') raises, if it does *)
}.

(** Log records, by level. *)
Inductive LogRecord :=
| LogInfo (msg : string)
| LogWarning (msg : string)
| LogError (msg : string).

(** How a script ends: [main] returned, so the interpreter exits with
    status 0, or an exception escaped, so it exits with status 1. *)
Inductive Completion :=
| Returned
| Uncaught (msg : string).

Definition exit_status (c : Completion) : Z :=
  match c with
  | Returned => 0
  | Uncaught _ => 1
  end.

(** A line of a CSV file as [csv.reader] returns it from a file opened
    for reading in text mode: the cells of a row ([Cells []] is a blank
    line), or the point where asking for the next row raises (bytes that
    do not decode or parse).  A file that cannot be read at all is one
    whose first line is unreadable. *)
Inductive Line :=
| Cells (cs : list string)
| Unreadable (msg : string).

(** The output file: absent, or its lines. *)
Definition Store := option (list Line).

(** What a text written with [newline=''] reads back as from a file
    opened without it (universal newlines): a carriage return, with the
    line feed that follows it if one does, becomes a line feed. *)
Fixpoint universal_newlines (s : string) : string :=
  match s with
  | EmptyString => EmptyString
  | String c rest =>
      if Ascii.eqb c "013"%char then
        match rest with
        | String c' rest' =>
            if Ascii.eqb c' "010"%char
            then String "010"%char (universal_newlines rest')
            else String "010"%char (universal_newlines rest)
        | EmptyString => String "010"%char EmptyString
        end
      else String c (universal_newlines rest)
  end.

(** [concurrent.futures.as_completed]: the futures in the order they
    finish.  The order is chosen by the schedule [sched]: going through
    the futures from the last submitted to the first, the future is put
    at the position the schedule gives it among those placed so far. *)
Fixpoint as_completed {A : Type} (sched : list nat) (futs : list A) : list A :=
  match futs with
  | [] => []
  | f :: fs =>
      let rest := as_completed (tail sched) fs in
      let k := hd 0%nat sched in
      take k rest ++ f :: drop k rest
  end.

End Py.

Import Py.

(** ** src/pdf_processor.py *)

Module V1.

Definition PAGE_COUNT_THRESHOLD : Z := 100.
Definition FILE_SIZE_THRESHOLD_BYTES : Z := 10 * 1024 * 1024.

(** The dict [info] of [process_single_pdf]. *)
Record Info := {
  file_path : string;
  file_size_bytes : Z;
  can_open : bool;
  page_count : Z;
  processing_time : Z;      (* milliseconds; the script stores seconds rounded to 3 places *)
  error_message : string;
  category : string
}.

Definition set_file_size_bytes (v : Z) (i : Info) : Info :=
  {| file_path := file_path i; file_size_bytes := v; can_open := can_open i;
     page_count := page_count i; processing_time := processing_time i;
     error_message := error_message i; category := category i |}.

Definition set_can_open (v : bool) (i : Info) : Info :=
  {| file_path := file_path i; file_size_bytes := file_size_bytes i; can_open := v;
     page_count := page_count i; processing_time := processing_time i;
     error_message := error_message i; category := category i |}.

Definition set_page_count (v : Z) (i : Info) : Info :=
  {| file_path := file_path i; file_size_bytes := file_size_bytes i; can_open := can_open i;
     page_count := v; processing_time := processing_time i;
     error_message := error_message i; category := category i |}.

Definition set_processing_time (v : Z) (i : Info) : Info :=
  {| file_path := file_path i; file_size_bytes := file_size_bytes i; can_open := can_open i;
     page_count := page_count i; processing_time := v;
     error_message := error_message i; category := category i |}.

Definition set_error_message (v : string) (i : Info) : Info :=
  {| file_path := file_path i; file_size_bytes := file_size_bytes i; can_open := can_open i;
     page_count := page_count i; processing_time := processing_time i;
     error_message := v; category := category i |}.

Definition set_category (v : string) (i : Info) : Info :=
  {| file_path := file_path i; file_size_bytes := file_size_bytes i; can_open := can_open i;
     page_count := page_count i; processing_time := processing_time i;
     error_message := error_message i; category := v |}.

(** [process_single_pdf], lines 36-80.  The [try] body is the match;
    [except Exception as e] is every [Raise] branch; [finally] is the
    last update, reached on every path, the early [return]s included. *)
Definition process_single_pdf (w : World) (pdf_path : string) : Info :=
  let pdf_path := str_path w pdf_path in
  let info :=
    {| file_path := pdf_path; file_size_bytes := 0; can_open := false;
       page_count := 0; processing_time := 0; error_message := "";
       category := "N/A" |} in
  let info :=
    match stat_size w pdf_path with
    | Raise e => set_error_message e info
    | Ok size =>
        let info := set_file_size_bytes size info in
        if size <? 100 then
          set_error_message "文件过小 (too small)" info
        else
          match fitz_open w pdf_path with
          | Raise e => set_error_message e info
          | Ok doc =>
              if is_encrypted doc then
                set_error_message "加密PDF" info
              else
                match doc_page_count doc with
                | Raise e => set_error_message e info
                | Ok page_count =>
                    let info := set_page_count page_count info in
                    let info := set_can_open true info in
                    let page_cat := if page_count >? PAGE_COUNT_THRESHOLD then "L" else "S" in
                    let size_cat := if size >? FILE_SIZE_THRESHOLD_BYTES then "L" else "S" in
                    set_category (page_cat +:+ "-" +:+ size_cat) info
                end
          end
    end in
  set_processing_time (elapsed_ms w pdf_path) info.

Definition header : list string :=
  ["file_path"; "file_size_bytes"; "can_open"; "page_count";
   "processing_time"; "error_message"; "category"].

Definition csv_line (w : World) (info : Info) : Line :=
  Cells [file_path info; pretty (file_size_bytes info);
         if can_open info then "True" else "False";
         pretty (page_count info);
         float_text w (processing_time info) 1000;
         error_message info; category info].

(** What a call of [main] leaves behind. *)
Record Run := {
  completion : Completion;
  store : Store;                     (* the output file *)
  log : list LogRecord;
  futures : list (Info * string)     (* [futures], when the result loop starts *)
}.

(** [main], lines 83-144.  [workers] sets the size of the pool only and
    is left out; INFO lines are not in [log].  [Popen] is
    not guarded, and neither is the reading of its output inside the
    dict comprehension, which runs after the file was opened with "w". *)
Definition main (w : World) (sched : list nat) (root_path : string)
    (output_csv : Store) : Run :=
  let root_path := str_path w root_path in
  if negb (path_exists w root_path) then
    {| completion := Returned; store := output_csv;
       log := [LogError ("路径不存在: " +:+ root_path)]; futures := [] |}
  else
    match popen w ["find"; root_path; "-type"; "f"; "-name"; "*.pdf"] with
    | Raise e =>
        {| completion := Uncaught e; store := output_csv; log := []; futures := [] |}
    | Ok find_proc =>
        let pdf_paths := rstrip_nl w <$> out_lines find_proc in
        let f := [Cells header] in
        let futures := (fun pdf => (process_single_pdf w pdf, pdf)) <$> pdf_paths in
        match read_error find_proc with
        | Some e =>
            {| completion := Uncaught e; store := Some f; log := []; futures := futures |}
        | None =>
            let rows := csv_line w <$> as_completed sched (futures.*1) in
            {| completion := Returned; store := Some (f ++ rows); log := [];
               futures := futures |}
        end
    end.

End V1.

(** ** src/pdf_processor_v6.py *)

Module V6.

Definition PAGE_COUNT_THRESHOLD : Z := 100.
Definition FILE_SIZE_THRESHOLD_BYTES : Z := 10 * 1024 * 1024.
Definition BATCH_WRITE_SIZE : nat := 1000.

(** [find_pdf_files], lines 39-62.  The generator is given by the list
    of the values it yields, in order.  [dedup] is the body shared by
    the two loops: skip a path whose [normcase] is in [seen], else add
    it to [seen] and yield the path. *)
Fixpoint dedup (w : World) (paths : list string) (seen : gset string)
  : list string * gset string :=
  match paths with
  | [] => ([], seen)
  | path :: rest =>
      let norm := normcase w path in
      if decide (norm ∈ seen) then dedup w rest seen
      else
        let '(out, seen') := dedup w rest ({[norm]} ∪ seen) in
        (path :: out, seen')
  end.

Definition nonempty (s : string) : bool :=
  match s with
  | EmptyString => false
  | String _ _ => true
  end.

Definition find_pdf_files (w : World) (root_path : string) : list string :=
  let root_path := str_path w root_path in
  let cmd := ["find"; root_path; "-type"; "f"; "-iname"; "*.pdf"] in
  let '(yielded, seen, raised) :=
    match popen w cmd with
    | Raise _ => ([], ∅, true)
    | Ok proc =>
        let paths := List.filter nonempty (List.map (strip w) (out_lines proc)) in
        let '(out, seen) := dedup w paths ∅ in
        (out, seen, bool_decide (is_Some (read_error proc)))
    end in
  if raised then yielded ++ fst (dedup w (rglob_pdf w root_path) seen)
  else yielded.

(** The dict [info] of [process_single_pdf].  [file_size_mb] is kept in
    hundredths of a MiB: for a size below 2^53 the quotient
    [size / (1024 * 1024)] is exact in double precision, and [round(_, 2)]
    rounds it half to even.  (From 2^53 bytes on the quotient is rounded
    to 53 bits first, and the hundredth recorded can be the next one.) *)
Record Info := {
  file_path : string;
  page_count : Z;
  file_size_mb : Z;
  category : string
}.

Definition round_half_even (n d : Z) : Z :=
  let q := n / d in
  let r := n mod d in
  if 2 * r <? d then q
  else if d <? 2 * r then q + 1
  else if Z.even q then q else q + 1.

(** [process_single_pdf], lines 64-89: every exception ends in [pass],
    leaving [info] as it was when the exception was raised. *)
Definition process_single_pdf (w : World) (pdf_path_str : string) : Info :=
  let pdf_path := str_path w pdf_path_str in
  let info :=
    {| file_path := pdf_path; page_count := 0; file_size_mb := 0;
       category := "N/A" |} in
  match stat_size w pdf_path with
  | Raise _ => info
  | Ok file_size_bytes =>
      let info :=
        {| file_path := file_path info; page_count := page_count info;
           file_size_mb := round_half_even (file_size_bytes * 100) (1024 * 1024);
           category := category info |} in
      match fitz_open w pdf_path with
      | Raise _ => info
      | Ok doc =>
          match doc_page_count doc with
          | Raise _ => info
          | Ok n =>
              let info :=
                {| file_path := file_path info; page_count := n;
                   file_size_mb := file_size_mb info; category := category info |} in
              let page_cat := if page_count info >? PAGE_COUNT_THRESHOLD then "L" else "S" in
              let size_cat := if file_size_bytes >? FILE_SIZE_THRESHOLD_BYTES then "L" else "S" in
              {| file_path := file_path info; page_count := page_count info;
                 file_size_mb := file_size_mb info;
                 category := page_cat +:+ "-" +:+ size_cat |}
          end
      end
  end.

(** [csv.DictReader]: the dict built for one row.  [dict(zip(...))]
    lets a later duplicate column win; the columns a short row lacks
    get [None]. *)
Definition dict_row (fieldnames row : list string) : gmap string (option string) :=
  let d := foldl (fun d kv => <[kv.1 := Some kv.2]> d) ∅ (zip fieldnames row) in
  foldl (fun d key => <[key := None]> d) d (drop (length row) fieldnames).

(** The loop [for row in reader] of [load_processed_csv], up to the end
    of the file or to the exception that leaves it. *)
Fixpoint load_rows (w : World) (fieldnames : list string) (lines : list Line)
    (processed : gset string) : gset string * option string :=
  match lines with
  | [] => (processed, None)
  | Unreadable e :: _ => (processed, Some e)
  | Cells [] :: rest => load_rows w fieldnames rest processed
  | Cells row :: rest =>
      let processed :=
        match dict_row fieldnames row !! "file_path" with
        | Some (Some p) =>
            if nonempty p then {[normcase w p]} ∪ processed else processed
        | _ => processed
        end in
      load_rows w fieldnames rest processed
  end.

(** [load_processed_csv], lines 91-106: the set returned and the log
    records emitted. *)
Definition load_processed_csv (w : World) (csv_file : Store)
  : gset string * list LogRecord :=
  match csv_file with
  | None => (∅, [])
  | Some lines =>
      let '(processed, raised) :=
        match lines with
        | [] => (∅, None)
        | Unreadable e :: _ => (∅, Some e)
        | Cells fieldnames :: rest => load_rows w fieldnames rest ∅
        end in
      match raised with
      | None =>
          (processed,
           [LogInfo ("已加载 " +:+ pretty (size processed) +:+ " 条已处理记录")])
      | Some e => (processed, [LogWarning ("加载 CSV 失败: " +:+ e)])
      end
  end.

(** What [csv_writer_thread] takes from the queue: a batch of rows, or
    the sentinel [None]. *)
Definition Message := option (list (option Info)).

(** The row [writer.writerow] writes for a record, as a later reader of
    the file gets it: the file is written with [newline=''] (line 114)
    and read without it (line 97). *)
Definition csv_line (w : World) (row : Info) : Line :=
  Cells (universal_newlines <$>
           [file_path row; pretty (page_count row);
            float_text w (file_size_mb row) 100; category row]).

(** The loop [for row in rows], lines 123-131: the lines written, and
    the exception that ended the loop, if one did.  A row whose path
    cannot be encoded raises in [writerow] and nothing of it is written;
    the other cells are digits and letters. *)
Fixpoint write_rows (w : World) (rows : list (option Info))
  : list Line * option string :=
  match rows with
  | [] => ([], None)
  | None :: rest => write_rows w rest
  | Some row :: rest =>
      match encode_error w (file_path row) with
      | Some e => ([], Some e)
      | None =>
          let '(written, raised) := write_rows w rest in
          (csv_line w row :: written, raised)
      end
  end.

(** How the writer thread ends: it saw the sentinel, an exception
    escaped (nothing in lines 112-132 catches one), or, with no message
    left and no sentinel seen, it waits for ever. *)
Inductive WriterEnd :=
| Exited
| Died (msg : string)
| Waiting.

(** The [while True] loop of the writer.  The queue is first in, first
    out, so the writer sees the messages in the order they were put.
    An exception leaves the [with] block, which closes the file with the
    lines written so far. *)
Fixpoint writer_loop (w : World) (queue : list Message) (f : list Line)
  : list Line * WriterEnd :=
  match queue with
  | [] => (f, Waiting)
  | None :: _ => (f, Exited)
  | Some rows :: rest =>
      match write_rows w rows with
      | (written, Some e) => (f ++ written, Died e)
      | (written, None) => writer_loop w rest (f ++ written)
      end
  end.

Definition header : list string :=
  ["file_path"; "page_count"; "file_size_mb"; "category"].

(** [csv_writer_thread], lines 112-132: the output file the thread
    leaves, and how it ends.  When [open] raises the file is left as it
    was, absent or not. *)
Definition csv_writer_thread (w : World) (csv_file : Store) (queue : list Message)
  : Store * WriterEnd :=
  let file_exists := bool_decide (is_Some csv_file) in
  match append_error w with
  | Some e => (csv_file, Died e)
  | None =>
      let f := default [] csv_file in
      let f := if negb file_exists then f ++ [Cells header] else f in
      let '(f, ended) := writer_loop w queue f in
      (Some f, ended)
  end.

(** [stats]: the counter and the per-category dict ([start] is a
    clock reading and is left out). *)
Record Stats := {
  processed : nat;
  category_counts : gmap string nat
}.

(** The variables the result loop of [process_pdfs] updates: the batch
    being filled, [stats], and the messages put on [csv_queue] so far
    (the queue is bounded: a [put] on a full queue waits for the writer,
    which changes no value). *)
Record Collect := {
  batch_rows : list Info;
  stats : Stats;
  csv_queue : list Message
}.

Definition setdefault (key : string) (v : nat) (d : gmap string nat) : gmap string nat :=
  match d !! key with
  | Some _ => d
  | None => <[key := v]> d
  end.

(** One turn of [for fut in as_completed(futures)], lines 155-163 (the
    progress line that follows depends on the clock only). *)
Definition collect_step (st : Collect) (res : Info) : Collect :=
  let batch_rows := batch_rows st ++ [res] in
  let counts := setdefault (category res) 0%nat (category_counts (stats st)) in
  let counts := alter S (category res) counts in
  let stats := {| processed := S (processed (stats st)); category_counts := counts |} in
  if (BATCH_WRITE_SIZE <=? length batch_rows)%nat then
    {| batch_rows := []; stats := stats;
       csv_queue := csv_queue st ++ [Some (Some <$> batch_rows)] |}
  else
    {| batch_rows := batch_rows; stats := stats; csv_queue := csv_queue st |}.

Definition collect_init : Collect :=
  {| batch_rows := [];
     stats := {| processed := 0;
                 category_counts :=
                   <["S-S" := 0%nat]> (<["S-L" := 0%nat]> (<["L-S" := 0%nat]>
                     (<["L-L" := 0%nat]> (<["N/A" := 0%nat]> ∅)))) |};
     csv_queue := [] |}.

(** [pdf_gen], line 148. *)
Definition pdf_gen (w : World) (root_path : string) (processed : gset string)
  : list string :=
  filter (fun p => normcase w p ∉ processed) (find_pdf_files w root_path).

(** The dict comprehension of line 151: one future per path of
    [pdf_gen], each future standing for the result it will hold. *)
Definition submit_all (w : World) (paths : list string) : list (Info * string) :=
  (fun p => (process_single_pdf w p, p)) <$> paths.

(** What a call of [process_pdfs] leaves behind. *)
Record Run := {
  resume_set : gset string;          (* [processed] *)
  futures : list (Info * string);    (* [futures], when the result loop starts *)
  final : Collect;                   (* the loop variables after the loop *)
  queue : list Message;              (* every message put on [csv_queue] *)
  csv_out : Store;                   (* the output file after [writer_thread.join()] *)
  writer_end : WriterEnd;            (* how the writer thread ended *)
  log : list LogRecord
}.

(** [process_pdfs], lines 109-185, for the runs in which every
    [fut.result()] returns and every [put] does.  (A worker process that
    dies makes [fut.result()] raise [BrokenProcessPool]; nothing catches
    that, lines 154-156, so such a run ends there, before lines 172-175,
    with an exception.  A [put] blocks for good when the writer thread
    has died and [CSV_QUEUE_MAXSIZE] = 5000 messages wait behind it.)
    [workers] sets the size of the pool only and is left out; the pool
    is its futures, completing in the order [sched] gives.  A writer
    thread that died does not stop the main thread otherwise: [join]
    returns and the summary is printed.  The INFO lines of the progress report and
    of the final summary carry clock readings and are not in [log]; the
    summary prints [processed] and the entries of [category_counts] of
    [final]. *)
Definition process_pdfs (w : World) (sched : list nat) (root_path : string)
    (csv_file : Store) (resume : bool) : Run :=
  let '(processed, log) :=
    if resume then load_processed_csv w csv_file else (∅, []) in
  let futures := submit_all w (pdf_gen w root_path processed) in
  let st := foldl collect_step collect_init (as_completed sched (futures.*1)) in
  let queue :=
    csv_queue st
    ++ (match batch_rows st with
        | [] => []
        | _ :: _ => [Some (Some <$> batch_rows st)]
        end)
    ++ [None] in
  let '(f, ended) := csv_writer_thread w csv_file queue in
  {| resume_set := processed; futures := futures; final := st; queue := queue;
     csv_out := f; writer_end := ended; log := log |}.

(** [main], lines 188-197: [process_pdfs] returns, so the script
    returns and exits with status 0, also when the writer thread died. *)
Definition main (w : World) (sched : list nat) (root_path : string)
    (output : Store) (no_resume : bool) : Run * Completion :=
  (process_pdfs w sched root_path output (negb no_resume), Returned).

End V6.

(** ** The library functions on a POSIX system

    Concrete versions of the library functions of [World], used to run
    the scripts on example trees.  On POSIX [os.path.normcase] returns
    its argument, and [str(Path(s))] drops empty and "." components.
    [strip] removes ASCII white space only ([str.strip] also removes the
    white space of Unicode); the lines of the examples are ASCII. *)

Module Posix.

Definition is_space (c : ascii) : bool :=
  let n := nat_of_ascii c in
  ((9 <=? n)%nat && (n <=? 13)%nat) || ((28 <=? n)%nat && (n <=? 32)%nat).

Fixpoint lstrip (s : string) : string :=
  match s with
  | EmptyString => EmptyString
  | String c rest => if is_space c then lstrip rest else s
  end.

Definition reverse_string (s : string) : string :=
  string_of_list_ascii (List.rev (list_ascii_of_string s)).

Definition strip (s : string) : string :=
  reverse_string (lstrip (reverse_string (lstrip s))).

Fixpoint lstrip_nl (s : string) : string :=
  match s with
  | EmptyString => EmptyString
  | String c rest => if Ascii.eqb c "010"%char then lstrip_nl rest else s
  end.

Definition rstrip_nl (s : string) : string :=
  reverse_string (lstrip_nl (reverse_string s)).

(** [s.split("/")]; [cur] holds the characters of the current
    component, last first. *)
Fixpoint split_slash (s : string) (cur : list ascii) : list string :=
  match s with
  | EmptyString => [string_of_list_ascii (List.rev cur)]
  | String c rest =>
      if Ascii.eqb c "/"%char
      then string_of_list_ascii (List.rev cur) :: split_slash rest []
      else split_slash rest (c :: cur)
  end.

(** [posixpath.splitroot]: the root is "//" for exactly two leading
    slashes, "/" for one or for three and more, and empty otherwise. *)
Definition splitroot (p : string) : string * string :=
  match p with
  | String "/" (String "/" (String "/" _ as rel)) => ("/", rel)
  | String "/" (String "/" rel) => ("//", rel)
  | String "/" rel => ("/", rel)
  | _ => ("", p)
  end.

Definition keep_part (x : string) : bool :=
  V6.nonempty x && negb (String.eqb x ".").

Fixpoint join_slash (parts : list string) : string :=
  match parts with
  | [] => ""
  | [x] => x
  | x :: rest => x +:+ "/" +:+ join_slash rest
  end.

(** [str(PurePosixPath(s))]. *)
Definition str_path (s : string) : string :=
  let '(root, rel) := splitroot s in
  let tail := List.filter keep_part (split_slash rel []) in
  let r := root +:+ join_slash tail in
  if V6.nonempty r then r else ".".

(** The digits after the point of [r / d], for [d] a power of ten and
    [0 <= r < d], without trailing zeros. *)
Fixpoint frac_digits (places : nat) (r d : Z) : string :=
  match places with
  | O => ""
  | S places =>
      if r =? 0 then ""
      else pretty (r / (d / 10)) +:+ frac_digits places (r mod (d / 10)) (d / 10)
  end.

(** [str] of the float [n / d], for [0 <= n] and [d] one of 10, 100 and
    1000, below the range where Python turns to exponents. *)
Definition float_text (n d : Z) : string :=
  let frac := frac_digits 3 (n mod d) d in
  pretty (n / d) +:+ "." +:+ (if V6.nonempty frac then frac else "0").

Definition lookup_path {A : Type} (files : list (string * A)) (p : string) : option A :=
  snd <$> List.find (fun kv => String.eqb (fst kv) p) files.

(** Whether the bytes are UTF-8; [more] is the number of continuation
    bytes still to come and [lo], [hi] bound the next one. *)
Fixpoint utf8_from (s : string) (more : nat) (lo hi : nat) : bool :=
  match s with
  | EmptyString => Nat.eqb more 0
  | String c rest =>
      let n := nat_of_ascii c in
      match more with
      | S more' => (lo <=? n)%nat && (n <=? hi)%nat && utf8_from rest more' 128 191
      | O =>
          if (n <=? 127)%nat then utf8_from rest 0 128 191
          else if (194 <=? n)%nat && (n <=? 223)%nat then utf8_from rest 1 128 191
          else if Nat.eqb n 224 then utf8_from rest 2 160 191
          else if Nat.eqb n 237 then utf8_from rest 2 128 159
          else if (225 <=? n)%nat && (n <=? 239)%nat then utf8_from rest 2 128 191
          else if Nat.eqb n 240 then utf8_from rest 3 144 191
          else if Nat.eqb n 244 then utf8_from rest 3 128 143
          else if (241 <=? n)%nat && (n <=? 243)%nat then utf8_from rest 3 128 191
          else false
      end
  end.

(** A path holds the bytes of the file name; bytes that are not UTF-8
    are surrogates in the Python string, which cannot be encoded. *)
Definition encode_error (s : string) : option string :=
  if utf8_from s 0 128 191 then None
  else Some "'utf-8' codec can't encode character: surrogates not allowed".

(** A POSIX world: [files] gives the size and what [fitz.open] returns
    for each file there is, [find] what starting [find] gives (what it
    prints, or the exception when it cannot be started), [rglob_out] what
    [rglob] yields.  The output file can be opened. *)
Definition world_rglob (files : list (string * (Z * result Doc)))
    (find : result ProcOut) (rglob_out : list string) : World :=
  {| normcase := fun s => s;
     Py.strip := strip;
     Py.rstrip_nl := rstrip_nl;
     Py.str_path := str_path;
     path_exists := fun p => bool_decide (is_Some (lookup_path files p));
     stat_size := fun p =>
       match lookup_path files p with
       | Some (size, _) => Ok size
       | None => Raise "[Errno 2] No such file or directory"
       end;
     fitz_open := fun p =>
       match lookup_path files p with
       | Some (_, doc) => doc
       | None => Raise "no such file"
       end;
     popen := fun _ => find;
     rglob_pdf := fun _ => rglob_out;
     elapsed_ms := fun _ => 1;
     Py.float_text := float_text;
     Py.encode_error := encode_error;
     append_error := None |}.

Definition world (files : list (string * (Z * result Doc))) (find_out : ProcOut)
  : World :=
  world_rglob files (Ok find_out) [].

Definition plain (pages : Z) : result Doc :=
  Ok {| is_encrypted := false; doc_page_count := Ok pages |}.

Definition printed (lines : list string) : ProcOut :=
  {| out_lines := lines; read_error := None |}.

End Posix.

(** ** Example trees *)

Module Examples.

(** The tree of the scenario of the specification: a file of 50 bytes,
    one of 5 MB with 10 pages and one of 15 MB with 150 pages.  The
    first one is a document the inspector opens (one page). *)
Definition tree : list (string * (Z * result Doc)) :=
  [("/d", (4096, Raise "is a directory"));
   ("/d/a.pdf", (50, Posix.plain 1));
   ("/d/b.pdf", (5000000, Posix.plain 10));
   ("/d/c.pdf", (15000000, Posix.plain 150))].

Definition w_tree : World :=
  Posix.world tree (Posix.printed ["/d/a.pdf"; "/d/b.pdf"; "/d/c.pdf"]).

(** A document at the two thresholds, and one just above them. *)
Definition w_edge : World :=
  Posix.world
    [("/d/edge.pdf", (10485760, Posix.plain 100));
     ("/d/over.pdf", (10485761, Posix.plain 101))]
    (Posix.printed ["/d/edge.pdf"; "/d/over.pdf"]).

(** An encrypted document of 2000 bytes whose page count can be read. *)
Definition w_locked : World :=
  Posix.world
    [("/d/e.pdf", (2000, Ok {| is_encrypted := true; doc_page_count := Ok 3 |}))]
    (Posix.printed ["/d/e.pdf"]).

(** A tree with a file whose name is not UTF-8 (the byte 0xff): the
    output of [find] does not decode, no line of it is read, and
    [find_pdf_files] falls back on [rglob], which yields the three
    paths. *)
Definition bad_name : string := "/d/b" +:+ String (ascii_of_nat 255) ".pdf".

Definition w_bad_name : World :=
  Posix.world_rglob
    [("/d", (4096, Raise "is a directory"));
     ("/d/a.pdf", (5000000, Posix.plain 10));
     (bad_name, (5000000, Posix.plain 10));
     ("/d/c.pdf", (15000000, Posix.plain 150))]
    (Ok {| out_lines := [];
           read_error := Some "'utf-8' codec can't decode byte 0xff" |})
    ["/d/a.pdf"; bad_name; "/d/c.pdf"].

End Examples.

(** ** Notions used in the statements *)

(** [cat] is the cross of the page class of [p] and the size class of
    [s], each "L" strictly above its threshold and "S" otherwise. *)
Definition cross_of (cat : string) (p s : Z) : Prop :=
  exists page_cat size_cat : string,
    cat = page_cat +:+ "-" +:+ size_cat
    /\ (page_cat = "L" <-> p > 100) /\ (page_cat = "S" <-> p <= 100)
    /\ (size_cat = "L" <-> s > 10 * 1024 * 1024)
    /\ (size_cat = "S" <-> s <= 10 * 1024 * 1024).

Definition sum_counts (m : gmap string nat) : nat :=
  map_fold (fun _ v acc => (v + acc)%nat) 0%nat m.

(** What the loop has put on the queue, followed by the batch being
    filled, is the results handled so far, in order. *)
Definition batched (st : V6.Collect) (rs : list V6.Info) : Prop :=
  exists bs : list (list (option V6.Info)),
    V6.csv_queue st = Some <$> bs
    /\ concat bs ++ (Some <$> V6.batch_rows st) = Some <$> rs.

(** The file the writer starts from: the existing one, or a new one with
    the header row. *)
Definition opened (store : Store) : list Line :=
  match store with
  | Some f => f
  | None => [Cells V6.header]
  end.

Global Instance Line_eq_dec : EqDecision Line.
Proof. solve_decision. Defined.



(** The results up to the first one whose path the writer cannot
    encode, and the exception raised there. *)
Fixpoint encodable_prefix (w : World) (rs : list V6.Info) : list V6.Info :=
  match rs with
  | [] => []
  | r :: rs =>
      match encode_error w (V6.file_path r) with
      | Some _ => []
      | None => r :: encodable_prefix w rs
      end
  end.

Fixpoint first_encode_error (w : World) (rs : list V6.Info) : option string :=
  match rs with
  | [] => None
  | r :: rs =>
      match encode_error w (V6.file_path r) with
      | Some e => Some e
      | None => first_encode_error w rs
      end
  end.

(** The entry [load_processed_csv] adds for one row: the [normcase] of
    its "file_path" cell, when the row has one that is not empty. *)
Definition row_key (w : World) (fieldnames row : list string) : option string :=
  match row with
  | [] => None
  | _ :: _ =>
      match V6.dict_row fieldnames row !! "file_path" with
      | Some (Some p) => if V6.nonempty p then Some (normcase w p) else None
      | _ => None
      end
  end.




(** The paths [find_pdf_files] goes through, before duplicates are
    dropped: the stripped, non-empty lines of [find], followed by the
    paths of [rglob] when the first traversal raised. *)
Definition candidates (w : World) (root_path : string) : list string :=
  let root_path := str_path w root_path in
  match popen w ["find"; root_path; "-type"; "f"; "-iname"; "*.pdf"] with
  | Raise _ => rglob_pdf w root_path
  | Ok proc =>
      List.filter V6.nonempty (List.map (strip w) (out_lines proc))
      ++ (if bool_decide (is_Some (read_error proc)) then rglob_pdf w root_path else [])
  end.

(** The five keys [category_counts] starts with. *)
Definition preset_categories : gset string :=
  {["S-S"; "S-L"; "L-S"; "L-L"; "N/A"]}.

(** The number of results of category [c]. *)
Definition count_category (c : string) (rs : list V6.Info) : nat :=
  length (filter (fun r => V6.category r = c) rs).

(** * Properties *)

(** ** The library model *)

Example str_path_examples :
  Posix.str_path "./a.pdf" = "a.pdf" /\ Posix.str_path "/d//x/./a.pdf" = "/d/x/a.pdf"
  /\ Posix.str_path "." = "." /\ Posix.str_path "//srv/a" = "//srv/a"
  /\ Posix.str_path "///srv/a/" = "/srv/a" /\ Posix.str_path "/d/a.pdf" = "/d/a.pdf".
Proof. repeat split; reflexivity. Qed.

Lemma as_completed_perm {A : Type} (sched : list nat) (futs : list A) :
  as_completed sched futs ≡ₚ futs.
Proof.
  revert sched. induction futs as [|f fs IH]; intros sched; simpl; [done|].
  rewrite <- Permutation_middle. constructor.
  rewrite take_drop. apply IH.
Qed.

(** ** Classification by the thresholds *)

Lemma cross_of_intro (p s : Z) :
  cross_of ((if p >? 100 then "L" else "S") +:+ "-"
            +:+ (if s >? 10 * 1024 * 1024 then "L" else "S")) p s.
Proof.
  exists (if p >? 100 then "L" else "S"), (if s >? 10 * 1024 * 1024 then "L" else "S").
  split; [reflexivity|].
  destruct (Z.gtb_spec p 100); destruct (Z.gtb_spec s (10 * 1024 * 1024));
    repeat split; intros; try lia; try discriminate; reflexivity.
Qed.

Lemma cross_of_not_NA (cat : string) (p s : Z) : cross_of cat p s -> cat <> "N/A".
Proof.
  intros (pc & sc & -> & Hp & Hp' & _) E.
  destruct (Z.gtb_spec p 100) as [H|H].
  - assert (pc = "L") as -> by (apply Hp; lia). discriminate.
  - assert (pc = "S") as -> by (apply Hp'; lia). discriminate.
Qed.

(** Case analysis along the [try] block of [process_single_pdf] of
    [pdf_processor_v6.py]: [stat], [fitz.open], [doc.page_count]. *)
Ltac inspect_cases :=
  unfold V6.process_single_pdf;
  destruct (stat_size _ _) as [?size|?e]; [|];
  [destruct (fitz_open _ _) as [?doc|?e]; [|];
   [destruct (doc_page_count _) as [?n|?e]|]|].

Lemma v6_classified (w : World) (path : string) (s p : Z) (doc : Doc) :
  stat_size w (str_path w path) = Ok s ->
  fitz_open w (str_path w path) = Ok doc ->
  doc_page_count doc = Ok p ->
  cross_of (V6.category (V6.process_single_pdf w path)) p s
  /\ V6.page_count (V6.process_single_pdf w path) = p.
Proof.
  intros Hstat Hopen Hpages.
  unfold V6.process_single_pdf. rewrite Hstat, Hopen, Hpages. cbn.
  split; [apply cross_of_intro | reflexivity].
Qed.

(** C1. A file whose size [s] is read and whose document opens with page
    count [p] gets, in both scripts, the category that crosses the page
    class and the size class, "L" exactly when [p > 100] and exactly when
    [s > 10 * 1024 * 1024], and the record carries [p]; so a file of
    exactly the size threshold is "S" on the size axis and a document of
    exactly 100 pages is "S" on the page axis.  ([pdf_processor.py]
    classifies only files of 100 bytes and more that are not encrypted.) *)
Theorem category_is_threshold_cross (w : World) (path : string) (s p : Z) (doc : Doc) :
  stat_size w (str_path w path) = Ok s ->
  fitz_open w (str_path w path) = Ok doc ->
  doc_page_count doc = Ok p ->
  (cross_of (V6.category (V6.process_single_pdf w path)) p s
   /\ V6.page_count (V6.process_single_pdf w path) = p)
  /\ (100 <= s -> is_encrypted doc = false ->
      cross_of (V1.category (V1.process_single_pdf w path)) p s
      /\ V1.page_count (V1.process_single_pdf w path) = p
      /\ V1.file_size_bytes (V1.process_single_pdf w path) = s)
  /\ (s = V6.FILE_SIZE_THRESHOLD_BYTES -> p = V6.PAGE_COUNT_THRESHOLD ->
      V6.category (V6.process_single_pdf w path) = "S-S")
  /\ V6.FILE_SIZE_THRESHOLD_BYTES = 10485760 /\ V6.PAGE_COUNT_THRESHOLD = 100
  /\ V1.FILE_SIZE_THRESHOLD_BYTES = 10485760 /\ V1.PAGE_COUNT_THRESHOLD = 100.
Proof.
  intros Hstat Hopen Hpages.
  split; [|split; [|split]].
  - by apply (v6_classified w path s p doc).
  - intros Hs Henc. unfold V1.process_single_pdf.
    rewrite Hstat, Hopen, Henc, Hpages.
    destruct (Z.ltb_spec s 100) as [?|_]; [lia|]. cbn.
    split; [apply cross_of_intro | split; reflexivity].
  - intros -> ->. unfold V6.process_single_pdf.
    rewrite Hstat, Hopen, Hpages. reflexivity.
  - repeat split; reflexivity.
Qed.

Lemma category_is_threshold_cross_witness :
  cross_of (V6.category (V6.process_single_pdf Examples.w_edge "/d/over.pdf")) 101 10485761
  /\ V6.category (V6.process_single_pdf Examples.w_edge "/d/edge.pdf") = "S-S"
  /\ cross_of (V1.category (V1.process_single_pdf Examples.w_edge "/d/edge.pdf")) 100 10485760.
Proof.
  pose proof (category_is_threshold_cross Examples.w_edge "/d/over.pdf" 10485761 101
                {| is_encrypted := false; doc_page_count := Ok 101 |}
                eq_refl eq_refl eq_refl) as [[Hover _] _].
  pose proof (category_is_threshold_cross Examples.w_edge "/d/edge.pdf" 10485760 100
                {| is_encrypted := false; doc_page_count := Ok 100 |}
                eq_refl eq_refl eq_refl) as (_ & Hv1 & Hedge & _).
  split; [exact Hover|].
  split; [exact (Hedge eq_refl eq_refl)|].
  apply Hv1; [lia | reflexivity].
Defined.

(** ** Files below 100 bytes *)

(** C4, as stated, fails on [pdf_processor_v6.py]: the file of 50 bytes
    of the example tree is opened by the inspector and comes back with a
    category of the cross, not with "N/A". *)
Lemma too_small_v6_counterexample :
  stat_size Examples.w_tree (str_path Examples.w_tree "/d/a.pdf") = Ok 50
  /\ 50 < 100
  /\ V6.category (V6.process_single_pdf Examples.w_tree "/d/a.pdf") = "S-S"
  /\ V6.page_count (V6.process_single_pdf Examples.w_tree "/d/a.pdf") = 1
  /\ V6.category (V6.process_single_pdf Examples.w_tree "/d/a.pdf") <> "N/A".
Proof. repeat split; try reflexivity; try lia. discriminate. Qed.

(** C4, amended.  In [pdf_processor.py] a file of fewer than 100 bytes
    returns before the document is opened: the record is the initial one
    with the size, the message "文件过小 (too small)" and the elapsed time,
    so category "N/A" and page count 0, whatever [fitz.open] would do.
    [pdf_processor_v6.py] has no such test and no message: it opens the
    file, and the record has category "N/A" and page count 0 when opening
    it or reading its page count raises. *)
Theorem too_small_short_circuit (w : World) (path : string) (s : Z) :
  stat_size w (str_path w path) = Ok s ->
  s < 100 ->
  V1.process_single_pdf w path =
    {| V1.file_path := str_path w path; V1.file_size_bytes := s;
       V1.can_open := false; V1.page_count := 0;
       V1.processing_time := elapsed_ms w (str_path w path);
       V1.error_message := "文件过小 (too small)"; V1.category := "N/A" |}
  /\ ((forall doc, fitz_open w (str_path w path) = Ok doc ->
                   exists e, doc_page_count doc = Raise e) ->
      V6.category (V6.process_single_pdf w path) = "N/A"
      /\ V6.page_count (V6.process_single_pdf w path) = 0).
Proof.
  intros Hstat Hs. split.
  - unfold V1.process_single_pdf. rewrite Hstat.
    destruct (Z.ltb_spec s 100) as [_|?]; [reflexivity | lia].
  - intros Hfail. unfold V6.process_single_pdf. rewrite Hstat.
    destruct (fitz_open w (str_path w path)) as [doc|e] eqn:Hopen; [|done].
    destruct (Hfail doc eq_refl) as [e He]. rewrite He. done.
Qed.

Lemma too_small_short_circuit_witness :
  V1.category (V1.process_single_pdf Examples.w_tree "/d/a.pdf") = "N/A"
  /\ V1.error_message (V1.process_single_pdf Examples.w_tree "/d/a.pdf")
     = "文件过小 (too small)".
Proof.
  pose proof (too_small_short_circuit Examples.w_tree "/d/a.pdf" 50 eq_refl eq_refl)
    as [H _].
  rewrite H. split; reflexivity.
Defined.

(** ** Encrypted documents *)

(** C5, as stated, fails on [pdf_processor_v6.py]: the encrypted document
    of the example is classified by the thresholds. *)
Lemma encrypted_v6_counterexample :
  fitz_open Examples.w_locked (str_path Examples.w_locked "/d/e.pdf")
    = Ok {| is_encrypted := true; doc_page_count := Ok 3 |}
  /\ V6.category (V6.process_single_pdf Examples.w_locked "/d/e.pdf") = "S-S"
  /\ V6.category (V6.process_single_pdf Examples.w_locked "/d/e.pdf") <> "N/A".
Proof. repeat split; try reflexivity. discriminate. Qed.

(** C5, amended.  In [pdf_processor.py] a document that opens and is
    reported encrypted returns at once: the record is the initial one
    with the size, the message "加密PDF" and the elapsed time, so category
    "N/A" and page count 0, whatever its size and page count.
    [pdf_processor_v6.py] does not look at [is_encrypted]: when the page
    count [n] of the document can be read the record carries [n] and the
    category of the thresholds, and when it cannot the category is "N/A"
    and the page count 0. *)
Theorem encrypted_short_circuit (w : World) (path : string) (s : Z) (doc : Doc) :
  stat_size w (str_path w path) = Ok s ->
  fitz_open w (str_path w path) = Ok doc ->
  is_encrypted doc = true ->
  (100 <= s ->
   V1.process_single_pdf w path =
     {| V1.file_path := str_path w path; V1.file_size_bytes := s;
        V1.can_open := false; V1.page_count := 0;
        V1.processing_time := elapsed_ms w (str_path w path);
        V1.error_message := "加密PDF"; V1.category := "N/A" |})
  /\ (forall n, doc_page_count doc = Ok n ->
        cross_of (V6.category (V6.process_single_pdf w path)) n s
        /\ V6.page_count (V6.process_single_pdf w path) = n)
  /\ (forall e, doc_page_count doc = Raise e ->
        V6.category (V6.process_single_pdf w path) = "N/A"
        /\ V6.page_count (V6.process_single_pdf w path) = 0).
Proof.
  intros Hstat Hopen Henc. split; [|split].
  - intros Hs. unfold V1.process_single_pdf. rewrite Hstat, Hopen, Henc.
    destruct (Z.ltb_spec s 100) as [?|_]; [lia | reflexivity].
  - intros n Hn.
    apply (v6_classified w path s n doc Hstat Hopen Hn).
  - intros e He. unfold V6.process_single_pdf. rewrite Hstat, Hopen, He. done.
Qed.

Lemma encrypted_short_circuit_witness :
  V1.category (V1.process_single_pdf Examples.w_locked "/d/e.pdf") = "N/A"
  /\ V1.error_message (V1.process_single_pdf Examples.w_locked "/d/e.pdf") = "加密PDF".
Proof.
  pose proof (encrypted_short_circuit Examples.w_locked "/d/e.pdf" 2000
                {| is_encrypted := true; doc_page_count := Ok 3 |}
                eq_refl eq_refl eq_refl) as [H _].
  rewrite H; [split; reflexivity | lia].
Defined.

(** ** The counters of the result loop *)

Lemma sum_counts_insert (m : gmap string nat) (k : string) (v : nat) :
  m !! k = None -> sum_counts (<[k := v]> m) = (v + sum_counts m)%nat.
Proof.
  intros Hk. unfold sum_counts.
  rewrite map_fold_insert_L; [done | intros; lia | done].
Qed.

Lemma sum_counts_alter_S (m : gmap string nat) (k : string) (v : nat) :
  m !! k = Some v -> sum_counts (alter S k m) = S (sum_counts m).
Proof.
  intros Hk.
  assert (alter S k m = <[k := S v]> (delete k m)) as ->.
  { apply map_eq. intros j. destruct (decide (k = j)) as [<-|Hne].
    - by rewrite lookup_alter_eq, Hk, lookup_insert_eq.
    - by rewrite lookup_alter_ne, lookup_insert_ne, lookup_delete_ne. }
  rewrite sum_counts_insert by apply lookup_delete_eq.
  unfold sum_counts at 2.
  rewrite (map_fold_delete_L _ _ k v m); [done | intros; lia | done].
Qed.

Lemma collect_step_stats (st : V6.Collect) (res : V6.Info) :
  V6.stats (V6.collect_step st res) =
    {| V6.processed := S (V6.processed (V6.stats st));
       V6.category_counts :=
         alter S (V6.category res)
           (V6.setdefault (V6.category res) 0%nat (V6.category_counts (V6.stats st))) |}.
Proof. unfold V6.collect_step. by case_match. Qed.

Lemma collect_step_counts (st : V6.Collect) (res : V6.Info) :
  let cc := V6.category_counts (V6.stats st) in
  let cc' := V6.category_counts (V6.stats (V6.collect_step st res)) in
  cc' !! V6.category res = Some (S (default 0%nat (cc !! V6.category res)))
  /\ (forall k, k <> V6.category res -> cc' !! k = cc !! k)
  /\ sum_counts cc' = S (sum_counts cc).
Proof.
  cbn zeta. rewrite collect_step_stats. cbn. unfold V6.setdefault.
  set (c := V6.category res). set (cc := V6.category_counts (V6.stats st)).
  destruct (cc !! c) as [v|] eqn:Hc; cbn.
  - split; [|split].
    + by rewrite lookup_alter_eq, Hc.
    + intros k Hk. by rewrite lookup_alter_ne.
    + by apply sum_counts_alter_S with v.
  - split; [|split].
    + by rewrite lookup_alter_eq, lookup_insert_eq.
    + intros k Hk. by rewrite lookup_alter_ne, lookup_insert_ne.
    + rewrite (sum_counts_alter_S _ c 0%nat) by apply lookup_insert_eq.
      by rewrite sum_counts_insert.
Qed.

Lemma sum_counts_init : sum_counts (V6.category_counts (V6.stats V6.collect_init)) = 0%nat.
Proof. vm_compute. reflexivity. Qed.

(** C10. After any number of results handled by the loop of
    [process_pdfs], the values of [category_counts] add up to
    [processed], which is the number of results handled: each result adds
    one to [processed] and one to the counter of its category, created at
    0 first when the category is not a key yet, and leaves the other
    counters alone.  The state the summary prints is the one reached
    after all the results of the run. *)
Theorem category_counts_sum_to_processed :
  (forall rs : list V6.Info,
     let st := foldl V6.collect_step V6.collect_init rs in
     sum_counts (V6.category_counts (V6.stats st)) = V6.processed (V6.stats st)
     /\ V6.processed (V6.stats st) = length rs)
  /\ (forall (st : V6.Collect) (res : V6.Info),
        let cc := V6.category_counts (V6.stats st) in
        let st' := V6.collect_step st res in
        V6.processed (V6.stats st') = S (V6.processed (V6.stats st))
        /\ V6.category_counts (V6.stats st') !! V6.category res
           = Some (S (default 0%nat (cc !! V6.category res)))
        /\ (forall k, k <> V6.category res ->
              V6.category_counts (V6.stats st') !! k = cc !! k))
  /\ (forall w sched root store resume,
        let r := V6.process_pdfs w sched root store resume in
        V6.final r =
          foldl V6.collect_step V6.collect_init (as_completed sched ((V6.futures r).*1))).
Proof.
  split; [|split].
  - intros rs. cbn zeta. induction rs as [|res rs IH] using rev_ind.
    + split; [apply sum_counts_init | reflexivity].
    + rewrite foldl_app. cbn [foldl].
      destruct IH as [IH1 IH2].
      destruct (collect_step_counts (foldl V6.collect_step V6.collect_init rs) res)
        as (_ & _ & Hsum).
      cbn zeta in Hsum. rewrite Hsum, IH1.
      rewrite collect_step_stats. cbn. rewrite IH2, length_app. cbn. lia.
  - intros st res. cbn zeta.
    destruct (collect_step_counts st res) as (H1 & H2 & _). cbn zeta in H1, H2.
    split; [|split]; [|exact H1|exact H2].
    by rewrite collect_step_stats.
  - intros w sched root store resume. unfold V6.process_pdfs.
    destruct (if resume then _ else _) as [processed log].
    destruct (V6.csv_writer_thread _ _ _). reflexivity.
Qed.

(** ** From the workers to the output file *)

Section Batches.
Context (w : World).

Lemma write_rows_app (a b : list (option V6.Info)) :
  V6.write_rows w (a ++ b)
  = match V6.write_rows w a with
    | (written, Some e) => (written, Some e)
    | (written, None) => (written ++ (V6.write_rows w b).1, (V6.write_rows w b).2)
    end.
Proof.
  induction a as [|[row|] a IH]; cbn [app V6.write_rows].
  - by destruct (V6.write_rows w b).
  - destruct (encode_error w (V6.file_path row)); [done|].
    rewrite IH. by destruct (V6.write_rows w a) as [written [e|]].
  - exact IH.
Qed.

Lemma write_rows_Some (rs : list V6.Info) :
  V6.write_rows w (Some <$> rs)
  = (V6.csv_line w <$> encodable_prefix w rs, first_encode_error w rs).
Proof.
  induction rs as [|r rs IH]; [done|].
  rewrite fmap_cons. cbn [V6.write_rows encodable_prefix first_encode_error].
  destruct (encode_error w (V6.file_path r)); [done|]. by rewrite IH.
Qed.

(** The writer goes through batches in order, as long as no row raises,
    and leaves at the sentinel. *)
Lemma writer_loop_batches (bs : list (list (option V6.Info))) (rest : list V6.Message)
    (f : list Line) :
  V6.writer_loop w ((Some <$> bs) ++ rest) f
  = match V6.write_rows w (concat bs) with
    | (written, Some e) => (f ++ written, V6.Died e)
    | (written, None) => V6.writer_loop w rest (f ++ written)
    end.
Proof.
  revert f. induction bs as [|b bs IH]; intros f.
  - cbn. by rewrite app_nil_r.
  - rewrite fmap_cons. cbn [app V6.writer_loop concat]. rewrite write_rows_app.
    destruct (V6.write_rows w b) as [written [e|]]; [done|].
    rewrite IH. cbn [fst snd].
    destruct (V6.write_rows w (concat bs)) as [written' [e|]]; by rewrite app_assoc.
Qed.

Lemma batched_step (st : V6.Collect) (rs : list V6.Info) (res : V6.Info) :
  batched st rs -> batched (V6.collect_step st res) (rs ++ [res]).
Proof.
  intros (bs & Hq & Hrs). unfold V6.collect_step.
  destruct (_ <=? _)%nat.
  - exists (bs ++ [Some <$> (V6.batch_rows st ++ [res])]).
    cbn [V6.csv_queue V6.batch_rows]. split.
    + rewrite Hq.
      exact (eq_sym (fmap_app Some bs [Some <$> V6.batch_rows st ++ [res]])).
    + rewrite concat_app. cbn [concat].
      rewrite !app_nil_r, !fmap_app, app_assoc, Hrs. done.
  - exists bs. cbn [V6.csv_queue V6.batch_rows]. split; [done|].
    rewrite !fmap_app, app_assoc, Hrs. done.
Qed.

Lemma batched_loop (rs : list V6.Info) :
  batched (foldl V6.collect_step V6.collect_init rs) rs.
Proof.
  induction rs as [|res rs IH] using rev_ind.
  - by exists [].
  - rewrite foldl_app. by apply batched_step.
Qed.

(** The queue of a whole run: batches, then the sentinel. *)
Lemma final_queue (st : V6.Collect) (rs : list V6.Info) :
  batched st rs ->
  exists bs : list (list (option V6.Info)),
    V6.csv_queue st
      ++ (match V6.batch_rows st with
          | [] => []
          | _ :: _ => [Some (Some <$> V6.batch_rows st)]
          end) ++ [None]
    = (Some <$> bs) ++ [None]
    /\ concat bs = Some <$> rs.
Proof.
  intros (bs & Hq & Hrs). destruct (V6.batch_rows st) as [|r batch] eqn:Hb.
  - exists bs. split; [by rewrite Hq|]. by rewrite <- Hrs, app_nil_r.
  - exists (bs ++ [Some <$> (r :: batch)]). split.
    + by rewrite Hq, fmap_app, <- app_assoc.
    + rewrite concat_app. cbn [concat]. by rewrite app_nil_r.
Qed.

End Batches.

Lemma process_pdfs_unfold (w : World) (sched : list nat) (root : string)
    (store : Store) (resume : bool) :
  let r := V6.process_pdfs w sched root store resume in
  let results := as_completed sched ((V6.futures r).*1) in
  V6.resume_set r = (if resume then V6.load_processed_csv w store else (∅, [])).1
  /\ V6.log r = (if resume then V6.load_processed_csv w store else (∅, [])).2
  /\ V6.futures r = V6.submit_all w (V6.pdf_gen w root (V6.resume_set r))
  /\ V6.final r = foldl V6.collect_step V6.collect_init results
  /\ V6.queue r =
       V6.csv_queue (V6.final r)
       ++ (match V6.batch_rows (V6.final r) with
           | [] => []
           | _ :: _ => [Some (Some <$> V6.batch_rows (V6.final r))]
           end) ++ [None]
  /\ (V6.csv_out r, V6.writer_end r) = V6.csv_writer_thread w store (V6.queue r).
Proof.
  cbn zeta. unfold V6.process_pdfs.
  destruct (if resume then _ else _) as [processed log].
  destruct (V6.csv_writer_thread _ _ _) as [f exited] eqn:Hw.
  cbn [V6.resume_set V6.log V6.futures V6.final V6.queue V6.csv_out
       V6.writer_end fst snd].
  rewrite Hw. repeat split.
Qed.

Lemma submit_all_fst (w : World) (paths : list string) :
  (V6.submit_all w paths).*1 = V6.process_single_pdf w <$> paths.
Proof. unfold V6.submit_all. rewrite <- list_fmap_compose. done. Qed.

Lemma submit_all_snd (w : World) (paths : list string) :
  (V6.submit_all w paths).*2 = paths.
Proof.
  unfold V6.submit_all. rewrite <- list_fmap_compose. cbn.
  induction paths as [|p ps IH]; cbn; [done|]. by rewrite IH.
Qed.


Lemma encodable_prefix_all (w : World) (rs : list V6.Info) :
  (forall r, r ∈ rs -> encode_error w (V6.file_path r) = None) ->
  encodable_prefix w rs = rs /\ first_encode_error w rs = None.
Proof.
  induction rs as [|r rs IH]; intros Hall; [done|].
  cbn [encodable_prefix first_encode_error].
  rewrite (Hall r) by apply list_elem_of_here.
  destruct IH as [-> ->]; [|done]. intros r' Hr'. apply Hall. by apply elem_of_cons; right.
Qed.


Lemma process_pdfs_output (w : World) (sched : list nat) (root : string)
    (store : Store) (resume : bool) :
  let r := V6.process_pdfs w sched root store resume in
  let results := as_completed sched ((V6.futures r).*1) in
  (exists batches : list (list (option V6.Info)),
     V6.queue r = (Some <$> batches) ++ [None]
     /\ concat batches = Some <$> results)
  /\ V6.writer_end r
     = match append_error w, first_encode_error w results with
       | Some e, _ => V6.Died e
       | None, Some e => V6.Died e
       | None, None => V6.Exited
       end
  /\ V6.csv_out r
     = match append_error w with
       | Some _ => store
       | None => Some (opened store ++ (V6.csv_line w <$> encodable_prefix w results))
       end.
Proof.
  cbn zeta.
  destruct (process_pdfs_unfold w sched root store resume)
    as (_ & _ & _ & Hfinal & Hqueue & Hwriter). cbn zeta in *.
  set (r := V6.process_pdfs w sched root store resume) in *.
  set (results := as_completed sched ((V6.futures r).*1)) in *.
  destruct (final_queue (V6.final r) results) as (bs & Hbs & Hconcat).
  { rewrite Hfinal. apply batched_loop. }
  rewrite <- Hqueue in Hbs. split; [by exists bs|].
  unfold V6.csv_writer_thread in Hwriter.
  destruct (append_error w) as [e|]; [by injection Hwriter as -> ->|].
  rewrite Hbs, writer_loop_batches, Hconcat, write_rows_Some in Hwriter.
  assert ((if negb (bool_decide (is_Some store))
           then default [] store ++ [Cells V6.header] else default [] store)
          = opened store) as Hopen by (by destruct store).
  rewrite Hopen in Hwriter.
  destruct (first_encode_error w results) as [e|]; cbn in Hwriter;
    by injection Hwriter as -> ->.
Qed.

(** C3 fails on the code.  On the tree with a file whose name is not
    UTF-8, [find_pdf_files] yields three paths through [rglob], three
    records are produced and counted, and they are put on the queue with
    the sentinel after them; the writer thread writes the row of the
    first, dies on the second, whose path it cannot encode, and the third
    record never reaches the file, although the run returns and [main]
    exits with status 0.  In general the file gets the rows of the
    results that come before the first one whose path cannot be encoded,
    and nothing when it cannot be opened. *)
Theorem unencodable_path_loses_rows :
  let w := Examples.w_bad_name in
  let r := V6.process_pdfs w [] "/d" None true in
  V6.find_pdf_files w "/d" = ["/d/a.pdf"; Examples.bad_name; "/d/c.pdf"]
  /\ V6.file_path <$> (V6.futures r).*1 = ["/d/a.pdf"; Examples.bad_name; "/d/c.pdf"]
  /\ V6.processed (V6.stats (V6.final r)) = 3%nat
  /\ V6.queue r = [Some (Some <$> (V6.futures r).*1); None]
  /\ V6.csv_out r = Some [Cells V6.header; Cells ["/d/a.pdf"; "10"; "4.77"; "S-S"]]
  /\ V6.writer_end r
     = V6.Died "'utf-8' codec can't encode character: surrogates not allowed"
  /\ exit_status (V6.main w [] "/d" None false).2 = 0
  /\ (forall w sched root store resume,
        let r := V6.process_pdfs w sched root store resume in
        V6.csv_out r
        = match append_error w with
          | Some _ => store
          | None =>
              Some (opened store
                    ++ (V6.csv_line w <$>
                          encodable_prefix w (as_completed sched ((V6.futures r).*1))))
          end).
Proof.
  cbn zeta. repeat (split; [by vm_compute|]).
  intros w sched root store resume.
  by destruct (process_pdfs_output w sched root store resume) as (_ & _ & Hout).
Qed.

(** ** The header row *)

Lemma v6_category_values (w : World) (path : string) :
  V6.category (V6.process_single_pdf w path)
  ∈ ["N/A"; "S-S"; "S-L"; "L-S"; "L-L"].
Proof.
  inspect_cases; cbn; [|set_solver..].
  destruct (_ >? _), (_ >? _); cbn; set_solver.
Qed.











(** ** Loading the output file of an earlier run *)

Lemma load_rows_acc (w : World) (fieldnames : list string) (rows : list (list string))
    (rest : list Line) (acc : gset string) :
  V6.load_rows w fieldnames ((Cells <$> rows) ++ rest) acc
  = V6.load_rows w fieldnames rest
      (acc ∪ list_to_set (omap (row_key w fieldnames) rows)).
Proof.
  revert acc. induction rows as [|row rows IH]; intros acc.
  - cbn. f_equal. set_solver.
  - rewrite fmap_cons. cbn [app V6.load_rows].
    destruct row as [|c cs]; [apply IH|].
    rewrite IH.
    change (omap (row_key w fieldnames) ((c :: cs) :: rows))
      with (match row_key w fieldnames (c :: cs) with
            | Some x => x :: omap (row_key w fieldnames) rows
            | None => omap (row_key w fieldnames) rows
            end).
    assert (row_key w fieldnames (c :: cs)
            = match V6.dict_row fieldnames (c :: cs) !! "file_path" with
              | Some (Some p) => if V6.nonempty p then Some (normcase w p) else None
              | _ => None
              end) as -> by reflexivity.
    destruct (V6.dict_row fieldnames (c :: cs) !! "file_path") as [[p|]|];
      [destruct (V6.nonempty p)|..]; cbn [list_to_set]; f_equal; set_solver.
Qed.

Lemma load_rows_complete (w : World) (fieldnames : list string) (rows : list (list string)) :
  V6.load_rows w fieldnames (Cells <$> rows) ∅
  = (list_to_set (omap (row_key w fieldnames) rows), None).
Proof.
  rewrite <- (app_nil_r (Cells <$> rows)), load_rows_acc. cbn. f_equal. set_solver.
Qed.




(** ** A root path that does not exist *)

(** C8, as stated, fails: on a root that does not exist [pdf_processor.py]
    returns from [main], so the exit status is 0; [pdf_processor_v6.py],
    given what [find] prints for such a root (nothing), logs no error,
    creates the output file with its header row, and exits with status 0
    as well. *)
Lemma missing_root_counterexample :
  let w := Posix.world Examples.tree (Posix.printed []) in
  path_exists w (str_path w "/missing") = false
  /\ exit_status (V1.completion (V1.main w [] "/missing" None)) = 0
  /\ exit_status (V6.main w [] "/missing" None false).2 = 0
  /\ V6.log (V6.main w [] "/missing" None false).1 = []
  /\ V6.csv_out (V6.main w [] "/missing" None false).1 = Some [Cells V6.header].
Proof. cbn zeta. repeat split; by vm_compute. Qed.

(** C8, amended.  When the root path does not exist, [main] of
    [pdf_processor.py] logs the error "路径不存在: " followed by the root
    and returns: [find] is not started, no file is submitted and the
    output file is left as it was, absent or not.  It returns normally,
    so the exit status is 0. *)
Theorem missing_root_stops_before_output (w : World) (sched : list nat)
    (root : string) (store : Store) :
  path_exists w (str_path w root) = false ->
  V1.main w sched root store =
    {| V1.completion := Returned; V1.store := store;
       V1.log := [LogError ("路径不存在: " +:+ str_path w root)];
       V1.futures := [] |}
  /\ exit_status (V1.completion (V1.main w sched root store)) = 0.
Proof.
  intros Hmissing. unfold V1.main. rewrite Hmissing. split; reflexivity.
Qed.

Lemma missing_root_stops_before_output_witness :
  V1.store (V1.main Examples.w_tree [] "/missing" (Some [Cells ["kept"]]))
  = Some [Cells ["kept"]].
Proof.
  destruct (missing_root_stops_before_output Examples.w_tree [] "/missing"
              (Some [Cells ["kept"]]) eq_refl) as [H _].
  rewrite H. reflexivity.
Defined.

(** ** The paths held while results are collected *)

Lemma futures_hold_all_paths_v6 (w : World) (sched : list nat) (root : string)
    (store : Store) (resume : bool) :
  let r := V6.process_pdfs w sched root store resume in
  (V6.futures r).*2
  = filter (fun p => normcase w p ∉ V6.resume_set r) (V6.find_pdf_files w root).
Proof.
  cbn zeta.
  destruct (process_pdfs_unfold w sched root store resume) as (_ & _ & Hfut & _).
  cbn zeta in Hfut. by rewrite Hfut, submit_all_snd.
Qed.

(** C9 fails on the code.  On the example tree of three files, when the
    result loop starts (no result has been handled yet), the dict
    [futures] of [process_pdfs] holds the three paths found, and so does
    the one of [main] in [pdf_processor.py]: the dict comprehension has
    drained the generator.  In general [futures] holds every path found
    that is not in the resume set. *)
Theorem futures_hold_every_path :
  let r := V6.process_pdfs Examples.w_tree [] "/d" None true in
  V6.find_pdf_files Examples.w_tree "/d" = ["/d/a.pdf"; "/d/b.pdf"; "/d/c.pdf"]
  /\ (V6.futures r).*2 = ["/d/a.pdf"; "/d/b.pdf"; "/d/c.pdf"]
  /\ (V1.futures (V1.main Examples.w_tree [] "/d" None)).*2
     = ["/d/a.pdf"; "/d/b.pdf"; "/d/c.pdf"]
  /\ (forall w sched root store resume,
        let r := V6.process_pdfs w sched root store resume in
        length (V6.futures r)
        = length (filter (fun p => normcase w p ∉ V6.resume_set r)
                         (V6.find_pdf_files w root))).
Proof.
  cbn zeta. split; [by vm_compute|]. split; [by vm_compute|]. split; [by vm_compute|].
  intros w sched root store resume.
  rewrite <- (futures_hold_all_paths_v6 w sched root store resume).
  by rewrite length_fmap.
Qed.

(** ** One record per path *)

Section Discovery.
Context (w : World).

Lemma dedup_spec (paths : list string) (seen : gset string) :
  let out := (V6.dedup w paths seen).1 in
  let seen' := (V6.dedup w paths seen).2 in
  NoDup (normcase w <$> out)
  /\ (forall p, p ∈ out -> (normcase w p ∉ seen) /\ (p ∈ paths))
  /\ seen' = seen ∪ list_to_set (normcase w <$> out).
Proof.
  cbn zeta. revert seen. induction paths as [|p paths IH]; intros seen.
  - cbn. split; [constructor|]. split; [intros p Hp; by apply elem_of_nil in Hp|].
    set_solver.
  - cbn [V6.dedup]. destruct (decide (normcase w p ∈ seen)) as [Hin|Hnew].
    + destruct (IH seen) as (Hnd & Hout & Hseen). split; [done|]. split; [|done].
      intros q Hq. destruct (Hout q Hq). split; [done|]. by apply elem_of_cons; right.
    + destruct (IH ({[normcase w p]} ∪ seen)) as (Hnd & Hout & Hseen).
      destruct (V6.dedup w paths ({[normcase w p]} ∪ seen)) as [out seen'].
      cbn [fst snd] in *. split; [|split].
      * rewrite fmap_cons. constructor; [|done].
        intros Hdup. apply list_elem_of_fmap in Hdup as (q & Hq & Hqin).
        destruct (Hout q Hqin) as [Hfresh _]. rewrite <- Hq in Hfresh. set_solver.
      * intros q Hq. apply elem_of_cons in Hq as [->|Hq].
        -- split; [done|]. by apply elem_of_cons; left.
        -- destruct (Hout q Hq) as [Hfresh ?]. split; [set_solver|].
           by apply elem_of_cons; right.
      * rewrite Hseen, fmap_cons. cbn [list_to_set]. set_solver.
Qed.




End Discovery.

Lemma as_completed_fmap {A B : Type} (g : A -> B) (sched : list nat) (l : list A) :
  as_completed sched (g <$> l) = g <$> as_completed sched l.
Proof.
  revert sched. induction l as [|x l IH]; intros sched; [done|].
  rewrite fmap_cons. cbn [as_completed].
  by rewrite IH, fmap_app, fmap_cons, fmap_take, fmap_drop.
Qed.

Section Resume.
Context (w : World).





Lemma process_single_pdf_file_path (p : string) :
  V6.file_path (V6.process_single_pdf w p) = str_path w p.
Proof. by inspect_cases. Qed.




End Resume.

Lemma resumed_run_output (w : World) (sched : list nat) (root : string) (store : Store) :
  let r := V6.process_pdfs w sched root store true in
  let done := as_completed sched (V6.pdf_gen w root (V6.load_processed_csv w store).1) in
  V6.resume_set r = (V6.load_processed_csv w store).1
  /\ (V6.futures r).*2 = V6.pdf_gen w root (V6.load_processed_csv w store).1
  /\ V6.csv_out r
     = match append_error w with
       | Some _ => store
       | None =>
           Some (opened store
                 ++ (V6.csv_line w <$>
                       encodable_prefix w (V6.process_single_pdf w <$> done)))
       end.
Proof.
  cbn zeta.
  destruct (process_pdfs_unfold w sched root store true) as (Hset & _ & Hfut & _).
  destruct (process_pdfs_output w sched root store true) as (_ & _ & Hout).
  cbn zeta in *. rewrite Hset in Hfut. split; [exact Hset|].
  split; [by rewrite Hfut, submit_all_snd|].
  by rewrite Hout, Hfut, submit_all_fst, as_completed_fmap.
Qed.



(** A root given as ".": [find] prints "./a.pdf", the record is written
    under [str(Path("./a.pdf"))], which is "a.pdf", and the next run
    compares "./a.pdf" with the "a.pdf" it loads; the file is classified
    and written again. *)
Example dot_root_is_scanned_again :
  let w := Posix.world [(".", (4096, Raise "is a directory"));
                        ("a.pdf", (5000000, Posix.plain 10))]
                       (Posix.printed ["./a.pdf"]) in
  let first := V6.process_pdfs w [] "." None true in
  let second := V6.process_pdfs w [] "." (V6.csv_out first) true in
  V6.csv_out first = Some [Cells V6.header; Cells ["a.pdf"; "10"; "4.77"; "S-S"]]
  /\ V6.resume_set second = {["a.pdf"]}
  /\ (V6.futures second).*2 = ["./a.pdf"]
  /\ V6.csv_out second = Some [Cells V6.header;
                               Cells ["a.pdf"; "10"; "4.77"; "S-S"];
                               Cells ["a.pdf"; "10"; "4.77"; "S-S"]].
Proof. cbn zeta. repeat split; by vm_compute. Qed.

(** A file name with a carriage return, on a machine without [find], so
    that the path comes from [rglob]: the writer, which opens the file
    with [newline=''], writes the carriage return as it is inside the
    quoted field, and the loader, which opens the file without it, reads
    a line feed in its place; the next run does not find the path in the
    resume set and writes a second row for the file. *)
Example carriage_return_is_scanned_again :
  let cr := String (ascii_of_nat 13) EmptyString in
  let lf := String (ascii_of_nat 10) EmptyString in
  let name := "/d/a" +:+ cr +:+ ".pdf" in
  let w := Posix.world_rglob
             [("/d", (4096, Raise "is a directory"));
              (name, (5000000, Posix.plain 10))]
             (Raise "[Errno 2] No such file or directory: 'find'")
             [name] in
  let first := V6.process_pdfs w [] "/d" None true in
  let second := V6.process_pdfs w [] "/d" (V6.csv_out first) true in
  V6.csv_out first
  = Some [Cells V6.header; Cells ["/d/a" +:+ lf +:+ ".pdf"; "10"; "4.77"; "S-S"]]
  /\ (V6.futures second).*2 = [name]
  /\ V6.csv_out second
     = Some [Cells V6.header;
             Cells ["/d/a" +:+ lf +:+ ".pdf"; "10"; "4.77"; "S-S"];
             Cells ["/d/a" +:+ lf +:+ ".pdf"; "10"; "4.77"; "S-S"]].
Proof. cbn zeta. repeat split; by vm_compute. Qed.



(** * Further properties of the two scripts *)

(** ** Completion order *)

(** Every order in which the futures can complete is the order of some
    schedule, so a statement for all schedules is one for all orders. *)
Lemma as_completed_any_order {A : Type} (futs done : list A) :
  futs ≡ₚ done -> exists sched, as_completed sched futs = done.
Proof.
  revert done. induction futs as [|f fs IH]; intros done Hperm.
  - apply Permutation_nil in Hperm as ->. by exists [].
  - assert (f ∈ done) as Hin by (rewrite <- Hperm; apply list_elem_of_here).
    apply list_elem_of_split in Hin as (l1 & l2 & ->).
    apply Permutation_cons_app_inv in Hperm.
    destruct (IH _ Hperm) as [sched Hsched].
    exists (length l1 :: sched). cbn [as_completed tail hd].
    by rewrite Hsched, take_app_length, drop_app_length.
Qed.

(** ** Discovery *)

Section DiscoveryMore.
Context (w : World).

Lemma dedup_sublist (paths : list string) (seen : gset string) :
  (V6.dedup w paths seen).1 `sublist_of` paths.
Proof.
  revert seen. induction paths as [|p paths IH]; intros seen; [constructor|].
  cbn [V6.dedup]. destruct (decide (normcase w p ∈ seen)).
  - by apply sublist_cons.
  - specialize (IH ({[normcase w p]} ∪ seen)).
    destruct (V6.dedup w paths _) as [out seen']. by apply sublist_skip.
Qed.

Lemma dedup_seen (paths : list string) (seen : gset string) :
  seen ⊆ (V6.dedup w paths seen).2
  /\ forall c, c ∈ paths -> normcase w c ∈ (V6.dedup w paths seen).2.
Proof.
  revert seen. induction paths as [|p paths IH]; intros seen.
  - split; [done|]. intros c Hc. by apply elem_of_nil in Hc.
  - cbn [V6.dedup]. destruct (decide (normcase w p ∈ seen)) as [Hin|Hnew].
    + destruct (IH seen) as [Hsub Hall]. split; [done|].
      intros c Hc. apply elem_of_cons in Hc as [->|Hc]; [by apply Hsub | by apply Hall].
    + destruct (IH ({[normcase w p]} ∪ seen)) as [Hsub Hall].
      destruct (V6.dedup w paths _) as [out seen']. cbn [snd] in *.
      split; [set_solver|].
      intros c Hc. apply elem_of_cons in Hc as [->|Hc]; [set_solver | by apply Hall].
Qed.

(** Two traversals in a row, the second starting from the [seen] set
    of the first. *)
Lemma dedup_twice (l1 l2 : list string) :
  let first := V6.dedup w l1 ∅ in
  let found := first.1 ++ (V6.dedup w l2 first.2).1 in
  found `sublist_of` l1 ++ l2
  /\ forall c, c ∈ l1 ++ l2 -> exists p, p ∈ found /\ normcase w p = normcase w c.
Proof.
  cbn zeta. split; [apply sublist_app; apply dedup_sublist|].
  destruct (dedup_spec w l1 ∅) as (_ & _ & Hseen1).
  destruct (dedup_spec w l2 (V6.dedup w l1 ∅).2) as (_ & _ & Hseen2).
  cbn zeta in *.
  assert (forall x, x ∈ (V6.dedup w l2 (V6.dedup w l1 ∅).2).2 ->
            exists p, p ∈ (V6.dedup w l1 ∅).1 ++ (V6.dedup w l2 (V6.dedup w l1 ∅).2).1
                      /\ normcase w p = x) as Hfound.
  { intros x Hx. rewrite Hseen2 in Hx. apply elem_of_union in Hx as [Hx|Hx].
    - rewrite Hseen1 in Hx. apply elem_of_union in Hx as [Hx|Hx].
      + by apply elem_of_empty in Hx.
      + apply elem_of_list_to_set, list_elem_of_fmap in Hx as (p & -> & Hp).
        exists p. split; [|done]. apply elem_of_app. by left.
    - apply elem_of_list_to_set, list_elem_of_fmap in Hx as (p & -> & Hp).
      exists p. split; [|done]. apply elem_of_app. by right. }
  intros c Hc. apply Hfound. apply elem_of_app in Hc as [Hc|Hc].
  - destruct (dedup_seen l2 (V6.dedup w l1 ∅).2) as [Hkept _].
    apply Hkept. by apply (dedup_seen l1 ∅).
  - by apply (dedup_seen l2 (V6.dedup w l1 ∅).2).
Qed.

End DiscoveryMore.

(** X1. [find_pdf_files] yields candidates only, in the order of the
    traversal, and drops a candidate only when a path with the same
    [normcase] form is yielded; when [find] ran to its end, every path
    yielded is a non-empty stripped line of its output, and [rglob] is
    not consulted. *)
Theorem find_pdf_files_loses_no_path (w : World) (root : string) :
  V6.find_pdf_files w root `sublist_of` candidates w root
  /\ (forall c, c ∈ candidates w root ->
        exists p, p ∈ V6.find_pdf_files w root /\ normcase w p = normcase w c)
  /\ (forall proc,
        popen w ["find"; str_path w root; "-type"; "f"; "-iname"; "*.pdf"] = Ok proc ->
        read_error proc = None ->
        forall p, p ∈ V6.find_pdf_files w root ->
          V6.nonempty p = true /\ exists line, line ∈ out_lines proc /\ p = strip w line).
Proof.
  assert (V6.find_pdf_files w root `sublist_of` candidates w root
          /\ (forall c, c ∈ candidates w root ->
                exists p, p ∈ V6.find_pdf_files w root /\ normcase w p = normcase w c))
    as [Hsub Hall].
  { unfold V6.find_pdf_files, candidates.
    destruct (popen w _) as [proc|e].
    - set (l1 := List.filter V6.nonempty (List.map (strip w) (out_lines proc))).
      destruct (dedup_twice w l1 (rglob_pdf w (str_path w root))) as [Hsub Hall].
      destruct (dedup_twice w l1 []) as [Hsub0 Hall0].
      cbn zeta in *. destruct (V6.dedup w l1 ∅) as [out seen]. cbn [fst snd] in *.
      destruct (bool_decide _); [by split|].
      cbn [V6.dedup fst] in Hsub0, Hall0.
      rewrite ?app_nil_r in *. repeat setoid_rewrite app_nil_r in Hall0.
      repeat setoid_rewrite app_nil_r. by split.
    - destruct (dedup_twice w [] (rglob_pdf w (str_path w root))) as [Hsub Hall].
      by split. }
  split; [exact Hsub|]. split; [exact Hall|].
  intros proc Hpopen Herr p Hp.
  eapply elem_of_sublist in Hp; [|exact Hsub].
  unfold candidates in Hp. rewrite Hpopen, Herr in Hp. cbn in Hp.
  rewrite app_nil_r in Hp. apply list_elem_of_In, filter_In in Hp as [Hp Hne].
  split; [done|]. apply in_map_iff in Hp as (line & <- & Hline).
  exists line. split; [by apply list_elem_of_In | done].
Qed.

Lemma find_pdf_files_loses_no_path_witness :
  Forall (fun p => V6.nonempty p = true) (V6.find_pdf_files Examples.w_tree "/d").
Proof.
  apply Forall_forall. intros p Hp.
  destruct (find_pdf_files_loses_no_path Examples.w_tree "/d") as (_ & _ & H).
  by destruct (H (Posix.printed ["/d/a.pdf"; "/d/b.pdf"; "/d/c.pdf"]) eq_refl eq_refl p Hp).
Defined.

(** ** The records of [process_single_pdf] *)

Lemma round_half_even_nearest (n d : Z) :
  0 < d ->
  2 * Z.abs (n - d * V6.round_half_even n d) <= d
  /\ (2 * Z.abs (n - d * V6.round_half_even n d) = d ->
      Z.even (V6.round_half_even n d) = true)
  /\ (0 <= n -> 0 <= V6.round_half_even n d).
Proof.
  intros Hd. unfold V6.round_half_even.
  pose proof (Z.div_mod n d ltac:(lia)) as Hdiv.
  pose proof (Z.mod_pos_bound n d Hd) as Hmod.
  assert (0 <= n -> 0 <= n / d) as Hpos by (intros; apply Z.div_pos; lia).
  destruct (Z.ltb_spec (2 * (n mod d)) d) as [Hlow|Hge].
  - repeat split; intros; lia.
  - destruct (Z.ltb_spec d (2 * (n mod d))) as [Hhigh|Hle].
    + repeat split; intros; lia.
    + destruct (Z.even (n / d)) eqn:Heven.
      * repeat split; intros; try lia. exact Heven.
      * repeat split; intros; try lia.
        rewrite Z.even_add, Heven. reflexivity.
Qed.

(** X2. The record of [process_single_pdf] in [pdf_processor_v6.py]:
    its path is [str(Path(...))] of the argument, its category one of
    the five preset keys, and with category "N/A" its page count is 0;
    the size is recorded as soon as [stat] succeeded, whether the
    document opens or not, and stays 0 when [stat] raised. *)
Theorem v6_record_shape (w : World) (path : string) :
  let info := V6.process_single_pdf w path in
  V6.file_path info = str_path w path
  /\ V6.category info ∈ ["N/A"; "S-S"; "S-L"; "L-S"; "L-L"]
  /\ (V6.category info = "N/A" -> V6.page_count info = 0)
  /\ (forall s, stat_size w (str_path w path) = Ok s ->
        V6.file_size_mb info = V6.round_half_even (s * 100) (1024 * 1024))
  /\ (forall e, stat_size w (str_path w path) = Raise e ->
        V6.file_size_mb info = 0 /\ V6.category info = "N/A").
Proof.
  cbn zeta. split; [apply process_single_pdf_file_path|].
  split; [apply v6_category_values|].
  inspect_cases; cbn; (split; [|split]); try done.
  - destruct (_ >? _), (_ >? _); discriminate.
  - by intros ? [= <-].
  - by intros ? [= <-].
  - by intros ? [= <-].
Qed.

(** X3. For a size below 2^53 bytes, where the division by 1024 * 1024
    is exact in floating point, the size recorded by
    [pdf_processor_v6.py] is the number of hundredths of a MiB nearest to
    the size read, a tie going to the even one, and is not negative. *)
Theorem file_size_mb_is_nearest_hundredth (w : World) (path : string) (s : Z) :
  stat_size w (str_path w path) = Ok s ->
  0 <= s < 2 ^ 53 ->
  let mb := V6.file_size_mb (V6.process_single_pdf w path) in
  2 * Z.abs (s * 100 - 1048576 * mb) <= 1048576
  /\ (2 * Z.abs (s * 100 - 1048576 * mb) = 1048576 -> Z.even mb = true)
  /\ 0 <= mb.
Proof.
  intros Hstat Hs. cbn zeta.
  assert (V6.file_size_mb (V6.process_single_pdf w path)
          = V6.round_half_even (s * 100) 1048576) as ->.
  { unfold V6.process_single_pdf. rewrite Hstat.
    destruct (fitz_open _ _) as [doc|]; [|done]. by destruct (doc_page_count doc). }
  destruct (round_half_even_nearest (s * 100) 1048576 ltac:(lia)) as (H1 & H2 & H3).
  split; [exact H1|]. split; [exact H2|]. apply H3. lia.
Qed.

Lemma file_size_mb_is_nearest_hundredth_witness :
  V6.file_size_mb (V6.process_single_pdf Examples.w_tree "/d/b.pdf") = 477
  /\ 2 * Z.abs (5000000 * 100 - 1048576 * 477) <= 1048576.
Proof.
  split; [reflexivity|].
  by destruct (file_size_mb_is_nearest_hundredth Examples.w_tree "/d/b.pdf" 5000000
                 eq_refl ltac:(lia))
    as [H _].
Defined.

(** The goals left by a branch of [process_single_pdf] that ends with
    category "N/A". *)
Ltac failed_record :=
  repeat split; try done; try set_solver; try (by intros ? [= <-]).

(** X4. The record of [process_single_pdf] in [pdf_processor.py]:
    [can_open] is set exactly when a category of the cross was assigned,
    and then no error message is; without it the category is "N/A" and
    the page count 0.  The elapsed time is recorded on every path, and
    the size whenever [stat] succeeded. *)
Theorem v1_record_shape (w : World) (path : string) :
  let info := V1.process_single_pdf w path in
  V1.file_path info = str_path w path
  /\ V1.processing_time info = elapsed_ms w (str_path w path)
  /\ (V1.can_open info = true <-> V1.category info <> "N/A")
  /\ (V1.can_open info = true -> V1.error_message info = "")
  /\ (V1.can_open info = false ->
      V1.category info = "N/A" /\ V1.page_count info = 0)
  /\ V1.category info ∈ ["N/A"; "S-S"; "S-L"; "L-S"; "L-L"]
  /\ (forall s, stat_size w (str_path w path) = Ok s -> V1.file_size_bytes info = s)
  /\ (forall e, stat_size w (str_path w path) = Raise e ->
        V1.file_size_bytes info = 0 /\ V1.error_message info = e).
Proof.
  cbn zeta. unfold V1.process_single_pdf.
  destruct (stat_size _ _) as [s|e]; cbn; [|by failed_record].
  destruct (s <? 100); cbn; [by failed_record|].
  destruct (fitz_open _ _) as [doc|e]; cbn; [|by failed_record].
  destruct (is_encrypted doc); cbn; [by failed_record|].
  destruct (doc_page_count doc) as [n|e]; cbn; [|by failed_record].
  repeat split; try done; try (by intros ? [= <-]).
  - intros _. destruct (_ >? _), (_ >? _); discriminate.
  - destruct (_ >? _), (_ >? _); cbn; set_solver.
Qed.

(** X5. On a file that [pdf_processor.py] does not turn away (its size,
    when it can be read, is 100 bytes or more, and its document, when it
    opens, is not encrypted) the two scripts record the same path, the
    same page count and the same category. *)
Theorem scripts_agree_on_accepted_files (w : World) (path : string) :
  (forall s, stat_size w (str_path w path) = Ok s -> 100 <= s) ->
  (forall doc, fitz_open w (str_path w path) = Ok doc -> is_encrypted doc = false) ->
  V1.file_path (V1.process_single_pdf w path) = V6.file_path (V6.process_single_pdf w path)
  /\ V1.page_count (V1.process_single_pdf w path)
     = V6.page_count (V6.process_single_pdf w path)
  /\ V1.category (V1.process_single_pdf w path)
     = V6.category (V6.process_single_pdf w path).
Proof.
  intros Hsize Hplain. unfold V1.process_single_pdf, V6.process_single_pdf.
  destruct (stat_size _ _) as [s|e]; [|done].
  destruct (Z.ltb_spec s 100) as [Hlt|_]; [specialize (Hsize s eq_refl); lia|].
  destruct (fitz_open _ _) as [doc|e]; [|done].
  rewrite (Hplain doc eq_refl).
  by destruct (doc_page_count doc).
Qed.

Lemma scripts_agree_on_accepted_files_witness :
  V1.category (V1.process_single_pdf Examples.w_edge "/d/over.pdf")
  = V6.category (V6.process_single_pdf Examples.w_edge "/d/over.pdf").
Proof.
  apply (scripts_agree_on_accepted_files Examples.w_edge "/d/over.pdf").
  - intros s [= <-]. lia.
  - by intros doc [= <-].
Defined.

(** ** Batches and counters *)

Lemma collect_step_batches (st : V6.Collect) (res : V6.Info) :
  let full := (V6.BATCH_WRITE_SIZE <=? S (length (V6.batch_rows st)))%nat in
  V6.batch_rows (V6.collect_step st res)
  = (if full then [] else V6.batch_rows st ++ [res])
  /\ V6.csv_queue (V6.collect_step st res)
     = V6.csv_queue st
       ++ (if full then [Some (Some <$> (V6.batch_rows st ++ [res]))] else []).
Proof.
  cbn zeta. unfold V6.collect_step. rewrite length_app, Nat.add_1_r.
  destruct (_ <=? _)%nat; cbn; [done|]. by rewrite app_nil_r.
Qed.

Lemma collect_loop_batches (rs : list V6.Info) :
  let st := foldl V6.collect_step V6.collect_init rs in
  (length (V6.batch_rows st) < V6.BATCH_WRITE_SIZE)%nat
  /\ Forall (fun m => exists b, m = Some b /\ length b = V6.BATCH_WRITE_SIZE)
            (V6.csv_queue st)
  /\ (length rs
      = V6.BATCH_WRITE_SIZE * length (V6.csv_queue st) + length (V6.batch_rows st))%nat.
Proof.
  cbn zeta.
  assert (0 < V6.BATCH_WRITE_SIZE)%nat as Hpos by (unfold V6.BATCH_WRITE_SIZE; lia).
  induction rs as [|res rs IH] using rev_ind.
  - change (foldl V6.collect_step V6.collect_init []) with V6.collect_init.
    change (V6.batch_rows V6.collect_init) with (@nil V6.Info).
    change (V6.csv_queue V6.collect_init) with (@nil V6.Message).
    split; [|split]; [cbn [length]; lia | constructor | cbn [length]; lia].
  - rewrite foldl_app. cbn [foldl].
    set (st := foldl V6.collect_step V6.collect_init rs) in *.
    destruct IH as (Hlt & Hfull & Hlen).
    destruct (collect_step_batches st res) as [Hbatch Hqueue]. cbn zeta in *.
    rewrite Hbatch, Hqueue, !length_app. cbn [length].
    destruct (Nat.leb_spec V6.BATCH_WRITE_SIZE (S (length (V6.batch_rows st))))
      as [Hge|Hless].
    + split; [cbn [length]; lia|]. split.
      * apply Forall_app. split; [done|]. constructor; [|constructor].
        eexists. split; [done|]. rewrite length_fmap, length_app. cbn [length]. lia.
      * cbn [length]. lia.
    + rewrite length_app. cbn [length]. repeat split; [lia | by rewrite app_nil_r | lia].
Qed.

Lemma collect_loop_processed (rs : list V6.Info) :
  V6.processed (V6.stats (foldl V6.collect_step V6.collect_init rs)) = length rs.
Proof.
  induction rs as [|res rs IH] using rev_ind; [done|].
  rewrite foldl_app. cbn [foldl]. rewrite collect_step_stats. cbn [V6.processed].
  rewrite IH, length_app. cbn [length]. lia.
Qed.

Lemma collect_loop_counts (rs : list V6.Info) (c : string) :
  default 0%nat
    (V6.category_counts (V6.stats (foldl V6.collect_step V6.collect_init rs)) !! c)
  = count_category c rs.
Proof.
  induction rs as [|res rs IH] using rev_ind.
  - cbn [foldl]. unfold V6.collect_init, count_category. cbn [V6.stats V6.category_counts].
    rewrite !lookup_insert, lookup_empty. by repeat case_decide.
  - rewrite foldl_app. cbn [foldl].
    destruct (collect_step_counts (foldl V6.collect_step V6.collect_init rs) res)
      as (Hcat & Hother & _). cbn zeta in Hcat, Hother.
    unfold count_category in *. rewrite filter_app, length_app.
    rewrite filter_cons, filter_nil.
    destruct (decide (V6.category res = c)) as [<-|Hne].
    + rewrite Hcat, IH. cbn. lia.
    + rewrite Hother by done. rewrite IH. cbn. lia.
Qed.

Lemma collect_step_dom (st : V6.Collect) (res : V6.Info) :
  dom (V6.category_counts (V6.stats (V6.collect_step st res)))
  = {[V6.category res]} ∪ dom (V6.category_counts (V6.stats st)).
Proof.
  rewrite collect_step_stats. cbn [V6.category_counts]. rewrite dom_alter_L.
  unfold V6.setdefault.
  destruct (_ !! _) eqn:Hc; [|by rewrite dom_insert_L].
  apply elem_of_dom_2 in Hc. set_solver.
Qed.

Lemma collect_loop_dom (rs : list V6.Info) :
  (forall r, r ∈ rs -> V6.category r ∈ preset_categories) ->
  dom (V6.category_counts (V6.stats (foldl V6.collect_step V6.collect_init rs)))
  = preset_categories.
Proof.
  induction rs as [|res rs IH] using rev_ind; intros Hcats.
  - by vm_compute.
  - rewrite foldl_app. cbn [foldl]. rewrite collect_step_dom, IH.
    + assert (V6.category res ∈ preset_categories).
      { apply Hcats, elem_of_app. right. apply list_elem_of_here. }
      set_solver.
    + intros r Hr. apply Hcats, elem_of_app. by left.
Qed.

(** X6. The batches of a run: every batch the result loop puts on the
    queue while it runs has exactly [BATCH_WRITE_SIZE] rows; after the
    loop the remaining rows, fewer than [BATCH_WRITE_SIZE], go in one
    more batch, which is left out when there is none (no empty batch is
    put); the sentinel follows.  With [n] results that is
    [n / BATCH_WRITE_SIZE] full batches and [n mod BATCH_WRITE_SIZE]
    remaining rows. *)
Theorem batches_are_full (w : World) (sched : list nat) (root : string)
    (store : Store) (resume : bool) :
  let r := V6.process_pdfs w sched root store resume in
  let n := length (V6.futures r) in
  exists (full : list V6.Message) (rest : list V6.Info),
    V6.queue r
    = full ++ (match rest with [] => [] | _ :: _ => [Some (Some <$> rest)] end) ++ [None]
    /\ Forall (fun m => exists b, m = Some b /\ length b = V6.BATCH_WRITE_SIZE) full
    /\ length full = (n / V6.BATCH_WRITE_SIZE)%nat
    /\ length rest = (n mod V6.BATCH_WRITE_SIZE)%nat.
Proof.
  cbn zeta.
  destruct (process_pdfs_unfold w sched root store resume)
    as (_ & _ & _ & Hfinal & Hqueue & _). cbn zeta in *.
  set (r := V6.process_pdfs w sched root store resume) in *.
  destruct (collect_loop_batches (as_completed sched ((V6.futures r).*1)))
    as (Hlt & Hfull & Hlen). cbn zeta in *. rewrite <- Hfinal in *.
  rewrite as_completed_perm, length_fmap in Hlen.
  exists (V6.csv_queue (V6.final r)), (V6.batch_rows (V6.final r)).
  split; [exact Hqueue|]. split; [exact Hfull|]. split.
  - apply (Nat.div_unique _ _ _ (length (V6.batch_rows (V6.final r)))); [lia|exact Hlen].
  - apply (Nat.mod_unique _ _ (length (V6.csv_queue (V6.final r)))); [lia|exact Hlen].
Qed.

Lemma encodable_prefix_length (w : World) (rs : list V6.Info) :
  (length (encodable_prefix w rs) <= length rs)%nat
  /\ (length (encodable_prefix w rs) = length rs <-> first_encode_error w rs = None).
Proof.
  induction rs as [|r rs [IHle IHeq]]; [done|].
  cbn [encodable_prefix first_encode_error length].
  destruct (encode_error w (V6.file_path r)); cbn [length].
  - split; [lia|]. split; [lia|done].
  - split; [lia|]. rewrite <- IHeq. lia.
Qed.

(** X7. The counters of a run are exact: the counter of each category
    is the number of results of that category (0 for a category without
    a counter), and since every record has one of the five preset
    categories, the keys of [category_counts] after a run are the five
    preset ones: [setdefault] adds none.  [processed] counts the results,
    not the rows written: the rows the writer adds to a file it opened
    are at most [processed], and as many exactly when every path could
    be encoded. *)
Theorem category_counts_are_exact (w : World) (sched : list nat) (root : string)
    (store : Store) (resume : bool) :
  let r := V6.process_pdfs w sched root store resume in
  let counts := V6.category_counts (V6.stats (V6.final r)) in
  let results := as_completed sched ((V6.futures r).*1) in
  let added := V6.csv_line w <$> encodable_prefix w results in
  (forall c, default 0%nat (counts !! c) = count_category c ((V6.futures r).*1))
  /\ dom counts = preset_categories
  /\ V6.processed (V6.stats (V6.final r)) = length (V6.futures r)
  /\ V6.csv_out r
     = match append_error w with
       | Some _ => store
       | None => Some (opened store ++ added)
       end
  /\ (length added <= V6.processed (V6.stats (V6.final r)))%nat
  /\ (length added = V6.processed (V6.stats (V6.final r))
      <-> first_encode_error w results = None).
Proof.
  cbn zeta.
  destruct (process_pdfs_unfold w sched root store resume)
    as (_ & _ & Hfut & Hfinal & _).
  destruct (process_pdfs_output w sched root store resume) as (_ & _ & Hout).
  cbn zeta in *. set (r := V6.process_pdfs w sched root store resume) in *.
  destruct (encodable_prefix_length w (as_completed sched ((V6.futures r).*1)))
    as [Hle Heq].
  rewrite Hfinal. split; [|split; [|split; [|split; [|split]]]].
  - intros c. rewrite collect_loop_counts. unfold count_category.
    by rewrite as_completed_perm.
  - apply collect_loop_dom. intros info Hinfo.
    rewrite as_completed_perm, Hfut, submit_all_fst in Hinfo.
    apply list_elem_of_fmap in Hinfo as (p & -> & _).
    pose proof (v6_category_values w p) as Hin. unfold preset_categories.
    set_solver.
  - by rewrite collect_loop_processed, as_completed_perm, length_fmap.
  - exact Hout.
  - by rewrite length_fmap, collect_loop_processed.
  - by rewrite length_fmap, collect_loop_processed.
Qed.

(** ** The writer *)

Lemma csv_writer_thread_unfold (w : World) (store : Store) (queue : list V6.Message) :
  V6.csv_writer_thread w store queue
  = match append_error w with
    | Some e => (store, V6.Died e)
    | None => (Some (V6.writer_loop w queue (opened store)).1,
               (V6.writer_loop w queue (opened store)).2)
    end.
Proof.
  unfold V6.csv_writer_thread. destruct (append_error w); [done|].
  assert ((if negb (bool_decide (is_Some store))
           then default [] store ++ [Cells V6.header] else default [] store)
          = opened store) as -> by (by destruct store).
  by destruct (V6.writer_loop w queue (opened store)).
Qed.

Lemma writer_loop_append (w : World) (queue : list V6.Message) (f : list Line) :
  exists added, (V6.writer_loop w queue f).1 = f ++ added.
Proof.
  revert f. induction queue as [|[rows|] queue IH]; intros f; cbn [V6.writer_loop].
  - exists []. by rewrite app_nil_r.
  - destruct (V6.write_rows w rows) as [written [e|]]; [by exists written|].
    destruct (IH (f ++ written)) as [added ->].
    exists (written ++ added). by rewrite app_assoc.
  - exists []. by rewrite app_nil_r.
Qed.

Lemma writer_loop_sentinel (w : World) (before after : list V6.Message) (f : list Line) :
  V6.writer_loop w (before ++ None :: after) f = V6.writer_loop w (before ++ [None]) f
  /\ (V6.writer_loop w (before ++ [None]) f).2 <> V6.Waiting.
Proof.
  revert f. induction before as [|[rows|] before IH]; intros f; cbn [app V6.writer_loop];
    [done| |done].
  destruct (V6.write_rows w rows) as [written [e|]]; [done|]. apply IH.
Qed.

(** X8. The writer thread, on any sequence of messages.  When it cannot
    open the file it dies and leaves the file as it was; otherwise it
    only appends to the file it opened.  It stops at the first sentinel
    and writes nothing that was put after it.  It skips a row that is
    [None], and a batch is written up to the first row whose path cannot
    be encoded: the thread dies there, with the rows before it written
    and no batch after it read.  With no sentinel among the messages and
    every row written, it is left waiting on the queue. *)
Theorem writer_appends_up_to_sentinel (w : World) :
  (forall store queue,
     exists added,
       (V6.csv_writer_thread w store queue).1
       = match append_error w with
         | Some _ => store
         | None => Some (opened store ++ added)
         end)
  /\ (forall store (before after : list V6.Message),
        V6.csv_writer_thread w store (before ++ None :: after)
        = V6.csv_writer_thread w store (before ++ [None])
        /\ (V6.csv_writer_thread w store (before ++ None :: after)).2 <> V6.Waiting)
  /\ (forall store batches rest,
        V6.csv_writer_thread w store ((Some <$> batches) ++ rest)
        = match append_error w, V6.write_rows w (concat batches) with
          | Some e, _ => (store, V6.Died e)
          | None, (written, Some e) => (Some (opened store ++ written), V6.Died e)
          | None, (written, None) =>
              (Some (V6.writer_loop w rest (opened store ++ written)).1,
               (V6.writer_loop w rest (opened store ++ written)).2)
          end)
  /\ (forall f, V6.writer_loop w [] f = (f, V6.Waiting))
  /\ (forall f after, V6.writer_loop w (None :: after) f = (f, V6.Exited))
  /\ (forall rows1 rows2,
        V6.write_rows w (rows1 ++ None :: rows2) = V6.write_rows w (rows1 ++ rows2))
  /\ (forall rs,
        V6.write_rows w (Some <$> rs)
        = (V6.csv_line w <$> encodable_prefix w rs, first_encode_error w rs)).
Proof.
  split; [|split; [|split; [|split; [|split; [|split]]]]].
  - intros store queue. rewrite csv_writer_thread_unfold.
    destruct (append_error w); [by exists []|]. cbn [fst].
    destruct (writer_loop_append w queue (opened store)) as [added ->]. by exists added.
  - intros store before after. rewrite !csv_writer_thread_unfold.
    destruct (append_error w); [done|].
    destruct (writer_loop_sentinel w before after (opened store)) as [-> Hend]. done.
  - intros store batches rest. rewrite csv_writer_thread_unfold.
    destruct (append_error w); [by destruct (V6.write_rows w (concat batches)) as [? [?|]]|].
    rewrite writer_loop_batches.
    by destruct (V6.write_rows w (concat batches)) as [written [e|]].
  - done.
  - done.
  - intros rows1 rows2. rewrite !write_rows_app.
    by destruct (V6.write_rows w rows1) as [written [e|]].
  - apply write_rows_Some.
Qed.

(** ** Reading the output file back *)

Lemma foldl_insert_Some_ne (kvs : list (string * string))
    (d : gmap string (option string)) (k : string) :
  (forall kv, kv ∈ kvs -> kv.1 <> k) ->
  foldl (fun d kv => <[kv.1 := Some kv.2]> d) d kvs !! k = d !! k.
Proof.
  revert d. induction kvs as [|kv kvs IH]; intros d Hne; [done|].
  cbn [foldl]. rewrite IH.
  - apply lookup_insert_ne, Hne, list_elem_of_here.
  - intros kv' Hkv'. apply Hne. by apply elem_of_cons; right.
Qed.

Lemma foldl_insert_None_ne (keys : list string)
    (d : gmap string (option string)) (k : string) :
  k ∉ keys ->
  foldl (fun d key => <[key := None]> d) d keys !! k = d !! k.
Proof.
  revert d. induction keys as [|key keys IH]; intros d Hne; [done|].
  cbn [foldl]. apply not_elem_of_cons in Hne as [Hne Hrest].
  rewrite IH by done. by apply lookup_insert_ne.
Qed.

Lemma dict_row_missing (fieldnames row : list string) (k : string) :
  k ∉ fieldnames -> V6.dict_row fieldnames row !! k = None.
Proof.
  intros Hk. unfold V6.dict_row.
  rewrite foldl_insert_None_ne, foldl_insert_Some_ne; [apply lookup_empty| |].
  - intros [k' v] Hkv Heq. cbn in Heq. subst k'.
    by apply elem_of_zip_l in Hkv.
  - intros Hin. apply Hk. eapply elem_of_sublist; [exact Hin | apply sublist_drop].
Qed.

Lemma dict_row_first (k : string) (cols : list string) (p : string) (rest : list string) :
  k ∉ cols -> V6.dict_row (k :: cols) (p :: rest) !! k = Some (Some p).
Proof.
  intros Hk. unfold V6.dict_row. cbn [zip zip_with foldl length drop fst snd].
  rewrite foldl_insert_None_ne, foldl_insert_Some_ne; [apply lookup_insert_eq| |].
  - intros [k' v] Hkv Heq. cbn in Heq. subst k'.
    by apply elem_of_zip_l in Hkv.
  - intros Hin. apply Hk. eapply elem_of_sublist; [exact Hin | apply sublist_drop].
Qed.

Lemma load_info_line (w : World) (fieldnames : list string) (rows : list (list string)) :
  V6.load_processed_csv w (Some (Cells fieldnames :: (Cells <$> rows)))
  = (list_to_set (omap (row_key w fieldnames) rows),
     [LogInfo ("已加载 "
               +:+ pretty (size (list_to_set (omap (row_key w fieldnames) rows)
                                 : gset string))
               +:+ " 条已处理记录")]).
Proof. unfold V6.load_processed_csv. by rewrite load_rows_complete. Qed.

(** X9. An output file whose first line has no "file_path" column (a
    file that was started without the header row, say) loads as the
    empty set, with the INFO record of 0 entries and no warning: every
    path found is then scanned, whatever the rows say. *)
Theorem load_without_path_column (w : World) (fieldnames : list string)
    (rows : list (list string)) (sched : list nat) (root : string) :
  "file_path" ∉ fieldnames ->
  let store := Some (Cells fieldnames :: (Cells <$> rows)) in
  V6.load_processed_csv w store = (∅, [LogInfo "已加载 0 条已处理记录"])
  /\ (V6.futures (V6.process_pdfs w sched root store true)).*2
     = V6.find_pdf_files w root.
Proof.
  intros Hmissing. cbn zeta.
  assert (omap (row_key w fieldnames) rows = []) as Hnone.
  { induction rows as [|row rows IH]; [done|]. cbn [omap list_omap].
    fold (omap (row_key w fieldnames) rows). rewrite IH.
    unfold row_key. destruct row; [done|]. by rewrite dict_row_missing. }
  assert (V6.load_processed_csv w (Some (Cells fieldnames :: (Cells <$> rows)))
          = (∅, [LogInfo "已加载 0 条已处理记录"])) as Hload.
  { rewrite load_info_line, Hnone. reflexivity. }
  split; [exact Hload|].
  destruct (resumed_run_output w sched root (Some (Cells fieldnames :: (Cells <$> rows))))
    as (_ & -> & _).
  rewrite Hload. cbn [fst]. unfold V6.pdf_gen.
  induction (V6.find_pdf_files w root) as [|p ps IH]; [done|].
  rewrite filter_cons_True by set_solver. by rewrite IH.
Qed.

Lemma load_without_path_column_witness :
  (V6.futures (V6.process_pdfs Examples.w_tree [] "/d"
                 (Some (Cells ["/d/a.pdf"; "1"; "0.0"; "S-S"]
                        :: (Cells <$> [["/d/b.pdf"; "10"; "4.77"; "S-S"]]))) true)).*2
  = ["/d/a.pdf"; "/d/b.pdf"; "/d/c.pdf"].
Proof.
  assert ("file_path" ∉ ["/d/a.pdf"; "1"; "0.0"; "S-S"]) as Hmissing.
  { apply (bool_decide_unpack _). vm_compute. exact I. }
  destruct (load_without_path_column Examples.w_tree ["/d/a.pdf"; "1"; "0.0"; "S-S"]
              [["/d/b.pdf"; "10"; "4.77"; "S-S"]] [] "/d" Hmissing) as [_ H].
  rewrite H. vm_compute. reflexivity.
Defined.

Lemma loaded_first_column (w : World) (cols : list string)
    (rows : list (list string)) (x : string) :
  "file_path" ∉ cols ->
  x ∈ (V6.load_processed_csv w
         (Some (Cells ("file_path" :: cols) :: (Cells <$> rows)))).1
  <-> exists p rest, (p :: rest) ∈ rows /\ V6.nonempty p = true /\ x = normcase w p.
Proof.
  intros Hcols. rewrite load_info_line. cbn [fst].
  rewrite elem_of_list_to_set, list_elem_of_omap. split.
  - intros ([|p rest] & Hrow & Hkey); [done|].
    unfold row_key in Hkey. rewrite (dict_row_first _ _ _ _ Hcols) in Hkey.
    destruct (V6.nonempty p) eqn:Hp; [|done]. injection Hkey as <-.
    by exists p, rest.
  - intros (p & rest & Hrow & Hp & ->). exists (p :: rest). split; [done|].
    unfold row_key. by rewrite (dict_row_first _ _ _ _ Hcols), Hp.
Qed.

(** X10. With "file_path" as the first column and nowhere else in the
    header, whatever the other columns and the length of the rows, the
    set loaded holds the [normcase] form of the first cell of every row
    that has a non-empty one, and nothing else (blank lines and rows
    with an empty first cell add nothing); the INFO record gives its
    size. *)
Theorem load_reads_first_column (w : World) (cols : list string)
    (rows : list (list string)) :
  "file_path" ∉ cols ->
  let loaded := V6.load_processed_csv w (Some (Cells ("file_path" :: cols) :: (Cells <$> rows))) in
  (forall x, x ∈ loaded.1 <->
             exists p rest, (p :: rest) ∈ rows /\ V6.nonempty p = true /\ x = normcase w p)
  /\ loaded.2 = [LogInfo ("已加载 " +:+ pretty (size loaded.1) +:+ " 条已处理记录")].
Proof.
  intros Hcols. cbn zeta. split.
  - intros x. by apply loaded_first_column.
  - by rewrite load_info_line.
Qed.

Lemma load_reads_first_column_witness :
  "/d/a.pdf" ∈ (V6.load_processed_csv Examples.w_tree
                  (Some (Cells ("file_path" :: ["size"])
                         :: (Cells <$> [[]; ["/d/a.pdf"]; [""; "7"]])))).1.
Proof.
  assert ("file_path" ∉ ["size"]) as Hcols.
  { apply (bool_decide_unpack _). vm_compute. exact I. }
  destruct (load_reads_first_column Examples.w_tree ["size"]
              [[]; ["/d/a.pdf"]; [""; "7"]] Hcols) as [H _].
  apply H. exists "/d/a.pdf", []. split; [|by split].
  apply elem_of_cons. right. apply list_elem_of_here.
Defined.

Lemma pdf_gen_empty (w : World) (root : string) :
  V6.pdf_gen w root ∅ = V6.find_pdf_files w root.
Proof.
  unfold V6.pdf_gen. induction (V6.find_pdf_files w root) as [|p ps IH]; [done|].
  rewrite filter_cons_True by set_solver. by rewrite IH.
Qed.


(** The cells [csv_writer_thread] writes for a record, as read back. *)
Lemma csv_lines_cells (w : World) (infos : list V6.Info) :
  V6.csv_line w <$> infos
  = Cells <$> ((fun row => universal_newlines <$>
                             [V6.file_path row; pretty (V6.page_count row);
                              float_text w (V6.file_size_mb row) 100; V6.category row])
               <$> infos).
Proof. by rewrite <- list_fmap_compose. Qed.

Lemma header_columns : "file_path" ∉ ["page_count"; "file_size_mb"; "category"].
Proof. apply (bool_decide_unpack _). vm_compute. exact I. Qed.

Lemma nonempty_universal_newlines (s : string) :
  V6.nonempty (universal_newlines s) = V6.nonempty s.
Proof.
  destruct s as [|c rest]; [done|]. cbn [universal_newlines].
  destruct (Ascii.eqb c "013"); [|done].
  destruct rest as [|c' rest']; [done|]. by destruct (Ascii.eqb c' "010").
Qed.

(** X11. What a run writes, the next run reads back.  After a run that
    started without an output file, loading what the run left gives the
    [normcase] forms of the paths written as they are read back (a
    carriage return read as a line feed, the empty path left out); the
    paths written are those of the results that completed before the
    first one that cannot be encoded, and none when the file could not
    be opened.  When the file can be opened and every path can be
    encoded, these are the forms of [str(Path(p))] for every path [p]
    found, in whatever order the results completed. *)
Theorem written_store_loads_back (w : World) (sched : list nat) (root : string)
    (resume : bool) :
  let r := V6.process_pdfs w sched root None resume in
  let loaded := (V6.load_processed_csv w (V6.csv_out r)).1 in
  let results := as_completed sched ((V6.futures r).*1) in
  (forall x,
     x ∈ loaded
     <-> append_error w = None
         /\ exists info, info ∈ encodable_prefix w results
                         /\ V6.nonempty (V6.file_path info) = true
                         /\ x = normcase w (universal_newlines (V6.file_path info)))
  /\ (append_error w = None ->
      (forall p, p ∈ V6.find_pdf_files w root -> encode_error w (str_path w p) = None) ->
      forall x,
        x ∈ loaded
        <-> exists p, p ∈ V6.find_pdf_files w root
                      /\ V6.nonempty (str_path w p) = true
                      /\ x = normcase w (universal_newlines (str_path w p))).
Proof.
  cbn zeta.
  destruct (process_pdfs_unfold w sched root None resume) as (Hset & _ & Hfut & _).
  destruct (process_pdfs_output w sched root None resume) as (_ & _ & Hout).
  cbn zeta in *. set (r := V6.process_pdfs w sched root None resume) in *.
  assert (V6.resume_set r = ∅) as Hempty by (rewrite Hset; by destruct resume).
  rewrite Hempty, pdf_gen_empty in Hfut.
  set (results := as_completed sched ((V6.futures r).*1)) in *.
  assert (forall x,
            x ∈ (V6.load_processed_csv w (V6.csv_out r)).1
            <-> append_error w = None
                /\ exists info, info ∈ encodable_prefix w results
                                /\ V6.nonempty (V6.file_path info) = true
                                /\ x = normcase w (universal_newlines (V6.file_path info)))
    as Hgen.
  { intros x. rewrite Hout. destruct (append_error w) as [e|].
    { split; [by intros ?%elem_of_empty | by intros [? _]]. }
    cbn [opened app]. rewrite csv_lines_cells. unfold V6.header.
    rewrite (loaded_first_column w _ _ x header_columns). split.
    - intros (p & rest & Hrow & Hp & ->). split; [done|].
      apply list_elem_of_fmap in Hrow as (info & Hcells & Hinfo).
      rewrite fmap_cons in Hcells. injection Hcells as -> _.
      rewrite nonempty_universal_newlines in Hp. by exists info.
    - intros (_ & info & Hinfo & Hne & ->). eexists _, _. split; [|split].
      + apply list_elem_of_fmap. exists info. split; [|done]. by rewrite fmap_cons.
      + by rewrite nonempty_universal_newlines.
      + done. }
  split; [exact Hgen|]. intros Happ Henc x. rewrite Hgen.
  destruct (encodable_prefix_all w results) as [-> _].
  { intros info Hinfo. unfold results in Hinfo.
    rewrite as_completed_perm, Hfut, submit_all_fst in Hinfo.
    apply list_elem_of_fmap in Hinfo as (p & -> & Hp).
    rewrite process_single_pdf_file_path. by apply Henc. }
  split.
  - intros (_ & info & Hinfo & Hne & ->). unfold results in Hinfo.
    rewrite as_completed_perm, Hfut, submit_all_fst in Hinfo.
    apply list_elem_of_fmap in Hinfo as (q & -> & Hq).
    rewrite process_single_pdf_file_path in *. by exists q.
  - intros (q & Hq & Hne & ->). split; [done|].
    exists (V6.process_single_pdf w q). rewrite process_single_pdf_file_path.
    split; [|done]. unfold results.
    rewrite as_completed_perm, Hfut, submit_all_fst. by apply list_elem_of_fmap_2.
Qed.

Lemma written_store_loads_back_witness :
  "/d/c.pdf" ∈ (V6.load_processed_csv Examples.w_tree
                  (V6.csv_out (V6.process_pdfs Examples.w_tree [2%nat] "/d" None true))).1.
Proof.
  destruct (written_store_loads_back Examples.w_tree [2%nat] "/d" true) as [_ H].
  cbn zeta in H. apply H.
  - reflexivity.
  - intros p Hp.
    assert (V6.find_pdf_files Examples.w_tree "/d" = ["/d/a.pdf"; "/d/b.pdf"; "/d/c.pdf"])
      as Hfound by (vm_compute; reflexivity).
    rewrite Hfound in Hp.
    repeat (apply elem_of_cons in Hp as [->|Hp]; [vm_compute; reflexivity|]).
    by apply elem_of_nil in Hp.
  - exists "/d/c.pdf". split; [|split; vm_compute; reflexivity].
    apply (bool_decide_unpack _). vm_compute. exact I.
Defined.

(** ** Runs one after the other *)



(** X13. With resume off the output file is not read: the resume set
    is empty and nothing is logged, whatever the file holds (unreadable
    lines included); every path found is submitted.  The file is not
    truncated: a writer that can open it appends the rows of the results
    that completed before the first one it cannot encode; when it can
    encode every path, that is one row per path found, so paths already
    recorded get a second row. *)
Theorem no_resume_scans_everything (w : World) (sched : list nat) (root : string)
    (store : Store) :
  let r := V6.process_pdfs w sched root store false in
  let results := V6.process_single_pdf w <$> as_completed sched (V6.find_pdf_files w root) in
  V6.resume_set r = ∅
  /\ V6.log r = []
  /\ (V6.futures r).*2 = V6.find_pdf_files w root
  /\ V6.csv_out r
     = match append_error w with
       | Some _ => store
       | None => Some (opened store ++ (V6.csv_line w <$> encodable_prefix w results))
       end
  /\ (append_error w = None ->
      (forall p, p ∈ V6.find_pdf_files w root -> encode_error w (str_path w p) = None) ->
      V6.csv_out r = Some (opened store ++ (V6.csv_line w <$> results))
      /\ length (opened store ++ (V6.csv_line w <$> results))
         = (length (opened store) + length (V6.find_pdf_files w root))%nat).
Proof.
  cbn zeta.
  destruct (process_pdfs_unfold w sched root store false) as (Hset & Hlog & Hfut & _).
  destruct (process_pdfs_output w sched root store false) as (_ & _ & Hout).
  cbn zeta in *. cbn [fst snd] in Hset, Hlog.
  rewrite Hset, pdf_gen_empty in Hfut.
  rewrite Hfut, submit_all_fst, as_completed_fmap in Hout.
  split; [exact Hset|]. split; [exact Hlog|].
  split; [by rewrite Hfut, submit_all_snd|]. split; [exact Hout|].
  intros Happ Henc. rewrite Hout, Happ.
  destruct (encodable_prefix_all w
              (V6.process_single_pdf w <$> as_completed sched (V6.find_pdf_files w root)))
    as [-> _].
  { intros info (p & -> & Hp)%list_elem_of_fmap. rewrite as_completed_perm in Hp.
    rewrite process_single_pdf_file_path. by apply Henc. }
  split; [done|]. by rewrite length_app, !length_fmap, as_completed_perm.
Qed.

Lemma no_resume_scans_everything_witness :
  V6.csv_out (V6.process_pdfs Examples.w_tree [] "/d"
                (Some [Cells V6.header; Cells ["/d/b.pdf"; "10"; "4.77"; "S-S"]]) false)
  = Some [Cells V6.header;
          Cells ["/d/b.pdf"; "10"; "4.77"; "S-S"];
          Cells ["/d/a.pdf"; "1"; "0.0"; "S-S"];
          Cells ["/d/b.pdf"; "10"; "4.77"; "S-S"];
          Cells ["/d/c.pdf"; "150"; "14.31"; "L-L"]].
Proof.
  destruct (no_resume_scans_everything Examples.w_tree [] "/d"
              (Some [Cells V6.header; Cells ["/d/b.pdf"; "10"; "4.77"; "S-S"]]))
    as (_ & _ & _ & _ & H).
  destruct H as [-> _].
  - reflexivity.
  - intros p Hp.
    assert (V6.find_pdf_files Examples.w_tree "/d" = ["/d/a.pdf"; "/d/b.pdf"; "/d/c.pdf"])
      as Hfound by (vm_compute; reflexivity).
    rewrite Hfound in Hp.
    repeat (apply elem_of_cons in Hp as [->|Hp]; [vm_compute; reflexivity|]).
    by apply elem_of_nil in Hp.
  - vm_compute. reflexivity.
Defined.

(** ** [main] of [pdf_processor.py] *)

Lemma v1_file_path (w : World) (path : string) :
  V1.file_path (V1.process_single_pdf w path) = str_path w path.
Proof.
  unfold V1.process_single_pdf.
  destruct (stat_size _ _) as [s|]; [|done]. destruct (s <? 100); [done|].
  destruct (fitz_open _ _) as [doc|]; [|done]. destruct (is_encrypted doc); [done|].
  by destruct (doc_page_count doc).
Qed.

Lemma v1_main_returned (w : World) (sched : list nat) (root : string) (store : Store)
    (find_proc : ProcOut) :
  path_exists w (str_path w root) = true ->
  popen w ["find"; str_path w root; "-type"; "f"; "-name"; "*.pdf"] = Ok find_proc ->
  read_error find_proc = None ->
  V1.main w sched root store
  = {| V1.completion := Returned;
       V1.store :=
         Some (Cells V1.header
               :: (V1.csv_line w <$>
                     as_completed sched
                       (V1.process_single_pdf w <$> (rstrip_nl w <$> out_lines find_proc))));
       V1.log := [];
       V1.futures :=
         (fun pdf => (V1.process_single_pdf w pdf, pdf))
           <$> (rstrip_nl w <$> out_lines find_proc) |}.
Proof.
  intros Hex Hpopen Herr. unfold V1.main. rewrite Hex, Hpopen, Herr. cbn [negb app].
  by rewrite <- !list_fmap_compose.
Qed.

(** X14. When [find] fails under [main] of [pdf_processor.py]: if the
    process cannot be started the exception escapes before the output
    file is opened, which stays as it was; if reading its output raises,
    the file has already been replaced by the header row alone, no row
    is written, and the rows of an earlier run are gone.  In both cases
    the exit status is 1. *)
Theorem v1_find_failure (w : World) (sched : list nat) (root : string) (store : Store) :
  path_exists w (str_path w root) = true ->
  (forall e,
     popen w ["find"; str_path w root; "-type"; "f"; "-name"; "*.pdf"] = Raise e ->
     V1.store (V1.main w sched root store) = store
     /\ V1.completion (V1.main w sched root store) = Uncaught e
     /\ exit_status (V1.completion (V1.main w sched root store)) = 1)
  /\ (forall find_proc e,
        popen w ["find"; str_path w root; "-type"; "f"; "-name"; "*.pdf"] = Ok find_proc ->
        read_error find_proc = Some e ->
        V1.store (V1.main w sched root store) = Some [Cells V1.header]
        /\ V1.completion (V1.main w sched root store) = Uncaught e
        /\ exit_status (V1.completion (V1.main w sched root store)) = 1).
Proof.
  intros Hex. split.
  - intros e Hpopen. unfold V1.main. by rewrite Hex, Hpopen.
  - intros find_proc e Hpopen Herr. unfold V1.main. by rewrite Hex, Hpopen, Herr.
Qed.

Lemma v1_find_failure_witness :
  let w := Posix.world Examples.tree
             {| out_lines := ["/d/a.pdf"]; read_error := Some "invalid start byte" |} in
  V1.store (V1.main w [] "/d" (Some [Cells V1.header; Cells ["/old/x.pdf"]]))
  = Some [Cells V1.header].
Proof.
  cbn zeta.
  destruct (v1_find_failure
              (Posix.world Examples.tree
                 {| out_lines := ["/d/a.pdf"]; read_error := Some "invalid start byte" |})
              [] "/d" (Some [Cells V1.header; Cells ["/old/x.pdf"]]) eq_refl) as [_ H].
  by destruct (H _ "invalid start byte" eq_refl eq_refl) as [-> _].
Defined.

(** X15. [main] of [pdf_processor.py] drops nothing and merges nothing:
    when it returns, the output file is the header row followed by one
    row for every line [find] printed, repeated and empty lines
    included, each row being the record of [process_single_pdf] for the
    line without its trailing newlines; the rows come in the order the
    results completed. *)
Theorem v1_one_row_per_line (w : World) (sched : list nat) (root : string)
    (store : Store) (find_proc : ProcOut) :
  path_exists w (str_path w root) = true ->
  popen w ["find"; str_path w root; "-type"; "f"; "-name"; "*.pdf"] = Ok find_proc ->
  read_error find_proc = None ->
  let r := V1.main w sched root store in
  exists rows,
    V1.store r = Some (Cells V1.header :: rows)
    /\ rows ≡ₚ (fun line => V1.csv_line w (V1.process_single_pdf w (rstrip_nl w line)))
               <$> out_lines find_proc
    /\ length rows = length (out_lines find_proc)
    /\ (V1.futures r).*2 = rstrip_nl w <$> out_lines find_proc
    /\ exit_status (V1.completion r) = 0.
Proof.
  intros Hex Hpopen Herr. cbn zeta.
  rewrite (v1_main_returned w sched root store find_proc Hex Hpopen Herr).
  cbn [V1.store V1.futures V1.completion]. eexists. split; [done|].
  split; [|split; [|split]].
  - rewrite as_completed_perm, <- !list_fmap_compose. done.
  - by rewrite length_fmap, as_completed_perm, !length_fmap.
  - rewrite <- list_fmap_compose. cbn.
    induction (rstrip_nl w <$> out_lines find_proc) as [|p ps IH]; [done|].
    cbn. by rewrite IH.
  - done.
Qed.

Lemma v1_one_row_per_line_witness :
  let w := Posix.world Examples.tree (Posix.printed ["/d/a.pdf"; "/d/a.pdf"; ""]) in
  exists rows, V1.store (V1.main w [] "/d" None) = Some (Cells V1.header :: rows)
               /\ length rows = 3%nat.
Proof.
  cbn zeta.
  destruct (v1_one_row_per_line
              (Posix.world Examples.tree (Posix.printed ["/d/a.pdf"; "/d/a.pdf"; ""]))
              [] "/d" None (Posix.printed ["/d/a.pdf"; "/d/a.pdf"; ""])
              eq_refl eq_refl eq_refl) as (rows & Hstore & _ & Hlen & _).
  exists rows. by split.
Defined.

Lemma v1_header_columns :
  "file_path" ∉ ["file_size_bytes"; "can_open"; "page_count"; "processing_time";
                 "error_message"; "category"].
Proof. apply (bool_decide_unpack _). vm_compute. exact I. Qed.

(** X16. [pdf_processor_v6.py] resumes from an output file written by
    [pdf_processor.py]: loading the file a returned [main] left gives the
    [normcase] forms of the paths it recorded, that is of
    [str(Path(line))] for every line [find] printed (those with an empty
    one left out). *)
Theorem v6_loads_v1_store (w : World) (sched : list nat) (root : string)
    (store : Store) (find_proc : ProcOut) (x : string) :
  path_exists w (str_path w root) = true ->
  popen w ["find"; str_path w root; "-type"; "f"; "-name"; "*.pdf"] = Ok find_proc ->
  read_error find_proc = None ->
  x ∈ (V6.load_processed_csv w (V1.store (V1.main w sched root store))).1
  <-> exists line, line ∈ out_lines find_proc
                   /\ V6.nonempty (str_path w (rstrip_nl w line)) = true
                   /\ x = normcase w (str_path w (rstrip_nl w line)).
Proof.
  intros Hex Hpopen Herr.
  rewrite (v1_main_returned w sched root store find_proc Hex Hpopen Herr).
  cbn [V1.store].
  assert (forall infos,
            V1.csv_line w <$> infos
            = Cells <$> ((fun info =>
                            [V1.file_path info; pretty (V1.file_size_bytes info);
                             if V1.can_open info then "True" else "False";
                             pretty (V1.page_count info);
                             float_text w (V1.processing_time info) 1000;
                             V1.error_message info; V1.category info]) <$> infos))
    as -> by (intros; by rewrite <- list_fmap_compose).
  unfold V1.header. rewrite (loaded_first_column w _ _ x v1_header_columns). split.
  - intros (p & rest & Hrow & Hp & ->).
    apply list_elem_of_fmap in Hrow as (info & [= -> ->] & Hinfo).
    rewrite as_completed_perm, <- list_fmap_compose in Hinfo.
    apply list_elem_of_fmap in Hinfo as (line & -> & Hline). unfold compose in *.
    rewrite v1_file_path in *. by exists line.
  - intros (line & Hline & Hne & ->). eexists _, _. split; [|split].
    + apply list_elem_of_fmap.
      exists (V1.process_single_pdf w (rstrip_nl w line)). split; [done|].
      rewrite as_completed_perm, <- list_fmap_compose.
      apply list_elem_of_fmap. by exists line.
    + by rewrite v1_file_path.
    + by rewrite v1_file_path.
Qed.

Lemma v6_loads_v1_store_witness :
  "/d/b.pdf" ∈ (V6.load_processed_csv Examples.w_tree
                  (V1.store (V1.main Examples.w_tree [1%nat] "/d" None))).1.
Proof.
  apply (v6_loads_v1_store Examples.w_tree [1%nat] "/d" None
           (Posix.printed ["/d/a.pdf"; "/d/b.pdf"; "/d/c.pdf"]) "/d/b.pdf"
           eq_refl eq_refl eq_refl).
  exists "/d/b.pdf". split; [|by split].
  apply elem_of_cons. right. apply list_elem_of_here.
Defined.
